(** * slurpd: applying replication entries to a replica (servers/slurpd/ldap_op.c)

    A shallow embedding of [do_ldap] and of the routines it calls
    ([op_ldap_add], [op_ldap_modify], [op_ldap_delete], [op_ldap_modrdn],
    [do_bind], [do_unbind], [read_krbnames], [getmodtype], ...), followed by
    the properties of the replication apply engine that are checked on it.

    Conventions of the embedding:
    - a C [int] is a [Z]; the counters of the source ([i], [nattrs], [nops],
      [nvals]) count the items of one replication entry and are assumed not to
      reach [INT_MAX];
    - a [char *] that the source tests against [NULL], or that is [NULL] at
      some point, is an [option string]; the bytes of a string stop at the
      first NUL for [strcmp] and [strcasecmp];
    - a NULL-terminated array is an [option (list _)]: [None] is the NULL
      pointer, [Some l] the array whose entries before the terminator are [l];
    - the LDAP and Kerberos libraries are an interface ([Library]) over an
      abstract [World]; every call is recorded, in order, in the [log] of the
      state, together with the [Debug] calls;
    - a step whose behaviour C leaves undefined (a load or store through a
      null pointer, the use of an unassigned pointer) ends the run with
      [Fault], carrying the state reached. *)

From Stdlib Require Import ZArith List String Ascii Bool Lia.
Import ListNotations.

Open Scope string_scope.
Open Scope list_scope.
Open Scope Z_scope.

(** ** C strings *)

Definition dq : string := String "034"%char EmptyString.
Definition nl : string := String "010"%char EmptyString.

Notation "a +++ b" := (String.append a b) (at level 60, right associativity).

(** ["s"] between double quotes, as [\"s\"] in a C literal. *)
Definition quoted (s : string) : string := dq +++ s +++ dq.

Definition code (c : ascii) : Z := Z.of_nat (nat_of_ascii c).

(** [strcmp]: the difference of the first two bytes that differ, both read as
    [unsigned char]; the end of a string is its NUL byte. *)
Fixpoint strcmp (a b : string) : Z :=
  match a, b with
  | EmptyString, EmptyString => 0
  | EmptyString, String d _ => 0 - code d
  | String c _, EmptyString => code c
  | String c a', String d b' =>
      if (code c =? code d)
      then (if code c =? 0 then 0 else strcmp a' b')
      else code c - code d
  end.

(** [tolower] and [toupper], [islower] in the C locale. *)
Definition tolower (c : ascii) : ascii :=
  if (65 <=? code c) && (code c <=? 90)
  then ascii_of_nat (nat_of_ascii c + 32) else c.

Definition islower (c : ascii) : bool := (97 <=? code c) && (code c <=? 122).

Definition toupper (c : ascii) : ascii :=
  if islower c then ascii_of_nat (nat_of_ascii c - 32) else c.

Fixpoint strcasecmp (a b : string) : Z :=
  match a, b with
  | EmptyString, EmptyString => 0
  | EmptyString, String d _ => 0 - code (tolower d)
  | String c _, EmptyString => code (tolower c)
  | String c a', String d b' =>
      if (code (tolower c) =? code (tolower d))
      then (if code (tolower c) =? 0 then 0 else strcasecmp a' b')
      else code (tolower c) - code (tolower d)
  end.

(** [upcase]: upper-cases the string in place, up to its NUL byte. *)
Fixpoint upcase (s : string) : string :=
  match s with
  | EmptyString => EmptyString
  | String c s' =>
      if code c =? 0 then s
      else String (if islower c then toupper c else c) (upcase s')
  end.

(** ** Constants of the headers

    [ldap.h], [slurp.h], [krb.h] and [portable.h] are not among the sources at
    hand: their constants are fields of [Headers], and the two conditional
    compilation symbols of [ldap_op.c] are booleans. *)

Class Headers := {
  (* ldap.h *)
  LDAP_SUCCESS : Z;
  LDAP_SERVER_DOWN : Z;
  LDAP_MOD_ADD : Z;
  LDAP_MOD_DELETE : Z;
  LDAP_MOD_REPLACE : Z;
  LDAP_MOD_BVALUES : Z;
  LDAP_OPT_REFERRALS : Z;
  LDAP_OPT_RESTART : Z;
  LDAP_SCOPE_BASE : Z;
  (* krb.h *)
  KSUCCESS : Z;
  (* slurp.h *)
  BIND_OK : Z;
  BIND_ERR_OPEN : Z;
  BIND_ERR_BAD_ATYPE : Z;
  BIND_ERR_SIMPLE_FAILED : Z;
  BIND_ERR_KERBEROS_FAILED : Z;
  BIND_ERR_BADRI : Z;
  DO_LDAP_OK : Z;
  DO_LDAP_ERR_RETRYABLE : Z;
  DO_LDAP_ERR_FATAL : Z;
  AUTH_SIMPLE : Z;
  AUTH_KERBEROS : Z;
  T_ADDCT : Z;
  T_MODIFYCT : Z;
  T_DELETECT : Z;
  T_MODRDNCT : Z;
  T_MODOPADDSTR : string;
  T_MODOPADD : Z;
  T_MODOPREPLACESTR : string;
  T_MODOPREPLACE : Z;
  T_MODOPDELETESTR : string;
  T_MODOPDELETE : Z;
  T_MODSEPSTR : string;
  T_MODSEP : Z;
  T_NEWRDNSTR : string;
  T_DRDNFLAGSTR : string;
  T_ERR : Z;
  (* conditional compilation *)
  KERBEROS : bool;
  LDAP_REFERRALS : bool
}.

(** ** Data *)

(** [LDAP *]: a connection handle; the struct behind it lives in the world. *)
Definition LDAP := Z.
(** [LDAPMessage *] *)
Definition LDAPMessage := Z.

(** [struct berval] *)
Record berval := { bv_val : string; bv_len : Z }.

(** [LDAPMod]: [mod_type] is NULL and [mod_bvalues] is NULL after
    [alloc_ldapmod]. *)
Record LDAPMod := {
  mod_op : Z;
  mod_type : option string;
  mod_bvalues : option (list berval)
}.

(** [Mi]: one line of a replication entry.  The array [re_mods] ends at the
    item whose [mi_type] is NULL; the items before it have a type. *)
Record Mi := { mi_type : string; mi_val : string; mi_len : Z }.

(** [Re]: a replication entry. *)
Record Re := {
  re_changetype : Z;
  re_dn : string;
  re_mods : option (list Mi)
}.

(** [Ri]: a replica. *)
Record Ri := {
  ri_hostname : string;
  ri_port : Z;
  ri_ldp : option LDAP;
  ri_bind_method : Z;
  ri_bind_dn : string;
  ri_password : string;
  ri_principal : option string;
  ri_srvtab : string
}.

Definition set_ri_ldp (l : option LDAP) (r : Ri) : Ri :=
  {| ri_hostname := ri_hostname r; ri_port := ri_port r; ri_ldp := l;
     ri_bind_method := ri_bind_method r; ri_bind_dn := ri_bind_dn r;
     ri_password := ri_password r; ri_principal := ri_principal r;
     ri_srvtab := ri_srvtab r |}.

Definition set_ri_principal (p : option string) (r : Ri) : Ri :=
  {| ri_hostname := ri_hostname r; ri_port := ri_port r; ri_ldp := ri_ldp r;
     ri_bind_method := ri_bind_method r; ri_bind_dn := ri_bind_dn r;
     ri_password := ri_password r; ri_principal := p;
     ri_srvtab := ri_srvtab r |}.

(** ** The libraries, as an interface

    One constructor per library routine that [ldap_op.c] calls, indexed by the
    type of what the routine gives back (its result, and what it stores
    through its pointer arguments). *)

Inductive call : Type -> Type :=
| ldap_open (host : string) (port : Z) : call (option LDAP)
| ldap_unbind (ld : option LDAP) : call Z
| ldap_simple_bind_s (ld : option LDAP) (dn passwd : option string) : call Z
| ldap_kerberos_bind_s (ld : option LDAP) (dn : string) : call Z
| ldap_add_s (ld : option LDAP) (dn : string) (attrs : list LDAPMod) : call Z
| ldap_modify_s (ld : option LDAP) (dn : string) (mods : list LDAPMod) : call Z
| ldap_delete_s (ld : option LDAP) (dn : string) : call Z
| ldap_modrdn2_s (ld : option LDAP) (dn newrdn : string) (deleteoldrdn : Z)
    : call Z
| ldap_search_st (ld : option LDAP) (base : string) (scope : Z)
    (filter : string) (attrs : list string) (attrsonly : Z) (timeout : Z * Z)
    : call (Z * option LDAPMessage)
| ldap_count_entries (ld : option LDAP) (chain : option LDAPMessage) : call Z
| ldap_first_entry (ld : option LDAP) (chain : option LDAPMessage)
    : call (option LDAPMessage)
| ldap_get_values (ld : option LDAP) (entry : option LDAPMessage)
    (attr : string) : call (option (list string))
| ldap_msgfree (lm : option LDAPMessage) : call Z
| ldap_value_free (vals : list string) : call unit
| kname_parse (fullname : string) : call (Z * (string * string * string))
| krb_get_svc_in_tkt (user instance realm service sinstance : string)
    (life : Z) (srvtab : string) : call Z
| strdup (s : string) : call (option string).

Class Library := {
  World : Type;
  (** what a call returns, and the world after it *)
  perform : forall T, call T -> World -> T * World;
  (** fields of the [LDAP] struct behind a handle *)
  ld_errno : LDAP -> World -> Z;
  ld_options : LDAP -> World -> Z;
  set_ld_options : LDAP -> Z -> World -> World;
  (** message tables *)
  ldap_err2string : Z -> string;
  krb_err_txt : Z -> string;
  sys_errlist : Z -> string;
  errno : World -> Z
}.

(** ** What a run leaves behind *)

Inductive level := LDAP_DEBUG_ANY | LDAP_DEBUG_ARGS | LDAP_DEBUG_TRACE.

(** An argument of [Debug]: a string, an int, or a buffer filled by
    [sprintf]. *)
Inductive arg :=
| Str (s : string)
| Int (z : Z)
| Sprintf (fmt : string) (a1 a2 : arg).

Inductive event :=
| Debug (lv : level) (fmt : string) (a1 a2 a3 : arg)
| Call {T : Type} (c : call T).

(** Where a run leaves defined behaviour. *)
Inductive fault :=
| NULL_ri             (* [ri->...] with [ri == NULL] *)
| NULL_ri_ldp         (* [ri->ri_ldp->ld_...] with [ri->ri_ldp == NULL] *)
| NULL_mi             (* [mi[ i ].mi_type] with [mi == NULL] *)
| NULL_ldmarr_store   (* [ldmarr[ nops ] = NULL] with [ldmarr == NULL] *)
| NULL_ldmarr_free    (* [ldmarr[ 0 ]] in [free_ldmarr( NULL )] *)
| NULL_mod_type       (* [strcasecmp( type, NULL )] *)
| UNINIT_ldm          (* [ldm->...] before [ldm] is assigned *)
| PAST_TERMINATOR     (* a field of the item that ends [re_mods] *)
| BAD_INDEX.          (* an index outside the entries stored so far *)

Section Model.

Context {hd : Headers} {lib : Library}.

(** The objects that [do_ldap]'s arguments point to, the world of the
    libraries and the record of what was called.  [ri] is [None] for a NULL
    [Ri *]; [errmsg] is the [char *] behind [char **errmsg]. *)
Record St := {
  ri : option Ri;
  errmsg : option string;
  world : World;
  log : list event
}.

Inductive res (A : Type) :=
| Ret (a : A) (s : St)
| Fault (f : fault) (s : St).
Arguments Ret {A} a s.
Arguments Fault {A} f s.

Definition M (A : Type) := St -> res A.

Definition ret {A} (a : A) : M A := fun s => Ret a s.

Definition bind {A B} (m : M A) (k : A -> M B) : M B :=
  fun s => match m s with
           | Ret a s' => k a s'
           | Fault f s' => Fault f s'
           end.

Definition raise {A} (f : fault) : M A := fun s => Fault f s.

Notation "x <- m ;; k" := (bind m (fun x => k))
  (at level 100, m at next level, right associativity).
Notation "m ;; k" := (bind m (fun _ => k))
  (at level 100, right associativity).

Definition emit (e : event) : M unit :=
  fun s => Ret tt {| ri := ri s; errmsg := errmsg s; world := world s;
                     log := log s ++ [e] |}.

(** [Debug( level, fmt, arg1, arg2, arg3 )] *)
Definition debug (lv : level) (fmt : string) (a1 a2 a3 : arg) : M unit :=
  emit (Debug lv fmt a1 a2 a3).

(** A library call: recorded, then answered by the library. *)
Definition do_call {T} (c : call T) : M T :=
  fun s => let (r, w) := perform T c (world s) in
           Ret r {| ri := ri s; errmsg := errmsg s; world := w;
                    log := log s ++ [Call c] |}.

(** [*errmsg = m] *)
Definition set_errmsg (m : option string) : M unit :=
  fun s => Ret tt {| ri := ri s; errmsg := m; world := world s;
                     log := log s |}.

(** [*errmsg] *)
Definition get_errmsg : M (option string) := fun s => Ret (errmsg s) s.

(** [ri->field] *)
Definition ri_get {A} (field : Ri -> A) : M A :=
  fun s => match ri s with
           | Some r => Ret (field r) s
           | None => Fault NULL_ri s
           end.

(** [ri->field = v] *)
Definition ri_set (upd : Ri -> Ri) : M unit :=
  fun s => match ri s with
           | Some r => Ret tt {| ri := Some (upd r); errmsg := errmsg s;
                                 world := world s; log := log s |}
           | None => Fault NULL_ri s
           end.

(** [ri->ri_ldp->field] *)
Definition ldp_get {A} (field : LDAP -> World -> A) : M A :=
  fun s => match ri s with
           | Some r => match ri_ldp r with
                       | Some ld => Ret (field ld (world s)) s
                       | None => Fault NULL_ri_ldp s
                       end
           | None => Fault NULL_ri s
           end.

(** [ri->ri_ldp->ld_options = f (ri->ri_ldp->ld_options)] *)
Definition ldp_update_options (f : Z -> Z) : M unit :=
  fun s => match ri s with
           | Some r =>
               match ri_ldp r with
               | Some ld =>
                   Ret tt {| ri := ri s; errmsg := errmsg s;
                             world := set_ld_options ld
                                        (f (ld_options ld (world s)))
                                        (world s);
                             log := log s |}
               | None => Fault NULL_ri_ldp s
               end
           | None => Fault NULL_ri s
           end.

(** ** Arrays under construction

    [arr[ n ] = x] on an array whose first [length arr] slots are filled:
    writing the slot after them extends the array, writing a filled slot
    replaces it. *)
Definition store {A} (arr : list A) (n : Z) (x : A) : M (list A) :=
  if n =? Z.of_nat (List.length arr) then ret (arr ++ [x])
  else if (0 <=? n) && (n <? Z.of_nat (List.length arr))
       then ret (firstn (Z.to_nat n) arr ++ x :: skipn (S (Z.to_nat n)) arr)
       else raise BAD_INDEX.

(** [arr[ n ] = NULL]: the array ends at slot [n]. *)
Definition terminate {A} (arr : list A) (n : Z) : M (list A) :=
  if (0 <=? n) && (n <=? Z.of_nat (List.length arr))
  then ret (firstn (Z.to_nat n) arr)
  else raise BAD_INDEX.

(** [ch_realloc( p, ... )]: the block, allocated if [p] was NULL. *)
Definition ch_realloc {A} (p : option (list A)) : list A :=
  match p with
  | Some arr => arr
  | None => []
  end.

(** ** [alloc_ldapmod], [free_ldapmod], [free_ldmarr],
       [make_singlevalued_berval] *)

(** [mod_op] is left unset by the source; it is assigned before any use. *)
Definition alloc_ldapmod : LDAPMod :=
  {| mod_op := 0; mod_type := None; mod_bvalues := None |}.

Definition free_ldapmod (ldm : option LDAPMod) : M unit := ret tt.

Fixpoint free_each (l : list LDAPMod) : M unit :=
  match l with
  | [] => ret tt
  | ldm :: l' => free_ldapmod (Some ldm) ;; free_each l'
  end.

(** The loop reads [ldmarr[ 0 ]] without testing [ldmarr]. *)
Definition free_ldmarr (ldmarr : option (list LDAPMod)) : M unit :=
  match ldmarr with
  | None => raise NULL_ldmarr_free
  | Some arr => free_each arr
  end.

Definition make_singlevalued_berval (value : string) (len : Z)
  : option (list berval) :=
  Some [ {| bv_val := value; bv_len := len |} ].

(** ** [getmodtype] *)

Definition getmodtype (type : string) : Z :=
  if strcmp type T_MODSEPSTR =? 0 then T_MODSEP
  else if strcmp type T_MODOPADDSTR =? 0 then T_MODOPADD
  else if strcmp type T_MODOPREPLACESTR =? 0 then T_MODOPREPLACE
  else if strcmp type T_MODOPDELETESTR =? 0 then T_MODOPDELETE
  else T_ERR.

(** ** [op_ldap_add] *)

(** The [while] loop: one [LDAPMod] per item, in order. *)
Fixpoint add_loop (mi : list Mi) (ldmarr : option (list LDAPMod)) (nattrs : Z)
  : M (option (list LDAPMod) * Z) :=
  match mi with
  | [] => ret (ldmarr, nattrs)
  | m :: mi' =>
      let ldm := alloc_ldapmod in
      let ldm := {| mod_op := LDAP_MOD_BVALUES;
                    mod_type := Some (mi_type m);
                    mod_bvalues :=
                      make_singlevalued_berval (mi_val m) (mi_len m) |} in
      arr <- store (ch_realloc ldmarr) nattrs ldm ;;
      add_loop mi' (Some arr) (nattrs + 1)
  end.

Definition op_ldap_add (re : Re) : M Z :=
  match re_mods re with
  | None => raise NULL_mi
  | Some mi =>
      p <- add_loop mi None 0 ;;
      let (ldmarr, nattrs) := p in
      match ldmarr with
      | Some arr =>
          arr <- terminate arr nattrs ;;
          host <- ri_get ri_hostname ;;
          port <- ri_get ri_port ;;
          debug LDAP_DEBUG_ARGS
            ("replica %s:%d - add dn " +++ quoted "%s" +++ nl)
            (Str host) (Int port) (Str (re_dn re)) ;;
          ld <- ri_get ri_ldp ;;
          rc <- do_call (ldap_add_s ld (re_dn re) arr) ;;
          lderr <- ldp_get ld_errno ;;
          free_ldmarr (Some arr) ;;
          ret lderr
      | None =>
          set_errmsg (Some "No modifications to do") ;;
          debug LDAP_DEBUG_ANY "Error: op_ldap_add: no mods to do (%s)!"
            (Str (re_dn re)) (Int 0) (Int 0) ;;
          free_ldmarr None ;;
          ret 0
      end
  end.

(** ** [op_ldap_delete] *)

Definition op_ldap_delete (re : Re) : M Z :=
  host <- ri_get ri_hostname ;;
  port <- ri_get ri_port ;;
  debug LDAP_DEBUG_ARGS
    ("replica %s:%d - delete dn " +++ quoted "%s" +++ nl)
    (Str host) (Int port) (Str (re_dn re)) ;;
  ld <- ri_get ri_ldp ;;
  rc <- do_call (ldap_delete_s ld (re_dn re)) ;;
  ret rc.

(** ** [op_ldap_modify] *)

Definition AWAITING_OP : Z := -1.

(** The locals of [op_ldap_modify] that live across iterations.  [ldm] is a
    pointer into the structs that [ldmarr] holds: the index of its target
    there, [None] while it has not been assigned. *)
Record locals := {
  state : Z;
  nvals : Z;
  nops : Z;
  ldm : option nat;
  ldmarr : option (list LDAPMod)
}.

Definition modify_init : locals :=
  {| state := AWAITING_OP; nvals := 0; nops := 0; ldm := None;
     ldmarr := None |}.

(** The body shared by the three operator cases, for the tag [t] and the
    operation [op]. *)
Definition modify_open (t op : Z) (value : string) (l : locals) : M locals :=
  let new := {| mod_op := Z.lor op LDAP_MOD_BVALUES;
                mod_type := Some value;
                mod_bvalues := mod_bvalues alloc_ldapmod |} in
  arr <- store (ch_realloc (ldmarr l)) (nops l) new ;;
  ret {| state := t; nvals := 0; nops := nops l + 1;
         ldm := Some (Z.to_nat (nops l)); ldmarr := Some arr |}.

(** The [default:] case. *)
Definition modify_value (type value : string) (len : Z) (l : locals)
  : M locals :=
  if state l =? AWAITING_OP then
    debug LDAP_DEBUG_ANY
      ("Error: op_ldap_modify: unknown mod type " +++ quoted "%s" +++ nl)
      (Str type) (Int 0) (Int 0) ;;
    ret l
  else
    match ldm l with
    | None => raise UNINIT_ldm
    | Some k =>
        match nth_error (ch_realloc (ldmarr l)) k with
        | None => raise BAD_INDEX
        | Some g =>
            match mod_type g with
            | None => raise NULL_mod_type
            | Some expected =>
                if negb (strcasecmp type expected =? 0) then
                  debug LDAP_DEBUG_ANY
                    ("Error: malformed modify op, %s: %s (expecting %s:)"
                       +++ nl)
                    (Str type) (Str value) (Str expected) ;;
                  ret l
                else
                  (* [mod_bvalues[ nvals ]] is written, the array ends at
                     [nvals + 1] *)
                  vals <- store (ch_realloc (mod_bvalues g)) (nvals l)
                            {| bv_val := value; bv_len := len |} ;;
                  vals <- terminate vals (nvals l + 1) ;;
                  arr <- store (ch_realloc (ldmarr l)) (Z.of_nat k)
                           {| mod_op := mod_op g; mod_type := mod_type g;
                              mod_bvalues := Some vals |} ;;
                  ret {| state := state l; nvals := nvals l + 1;
                         nops := nops l; ldm := ldm l;
                         ldmarr := Some arr |}
            end
        end
    end.

(** One iteration of the [for] loop. *)
Definition modify_step (m : Mi) (l : locals) : M locals :=
  let type := mi_type m in
  let value := mi_val m in
  let len := mi_len m in
  let t := getmodtype type in
  if t =? T_MODSEP then
    ret {| state := T_MODSEP; nvals := nvals l; nops := nops l;
           ldm := ldm l; ldmarr := ldmarr l |}
  else if t =? T_MODOPADD then modify_open T_MODOPADD LDAP_MOD_ADD value l
  else if t =? T_MODOPREPLACE then
    modify_open T_MODOPREPLACE LDAP_MOD_REPLACE value l
  else if t =? T_MODOPDELETE then
    modify_open T_MODOPDELETE LDAP_MOD_DELETE value l
  else modify_value type value len l.

Fixpoint modify_loop (mi : list Mi) (l : locals) : M locals :=
  match mi with
  | [] => ret l
  | m :: mi' => l' <- modify_step m l ;; modify_loop mi' l'
  end.

Definition op_ldap_modify (re : Re) : M Z :=
  match re_mods re with
  | None =>
      set_errmsg (Some "No arguments given") ;;
      debug LDAP_DEBUG_ANY ("Error: op_ldap_modify: no arguments" +++ nl)
        (Int 0) (Int 0) (Int 0) ;;
      ret (-1)
  | Some mi =>
      l <- modify_loop mi modify_init ;;
      match ldmarr l with
      | None => raise NULL_ldmarr_store
      | Some arr =>
          arr <- terminate arr (nops l) ;;
          rc <- (if 0 <? nops l then
                   host <- ri_get ri_hostname ;;
                   port <- ri_get ri_port ;;
                   debug LDAP_DEBUG_ARGS
                     ("replica %s:%d - modify dn " +++ quoted "%s" +++ nl)
                     (Str host) (Int port) (Str (re_dn re)) ;;
                   ld <- ri_get ri_ldp ;;
                   do_call (ldap_modify_s ld (re_dn re) arr)
                 else ret 0) ;;
          free_ldmarr (Some arr) ;;
          ret rc
      end
  end.

(** ** [op_ldap_modrdn] *)

Definition GOT_NEWRDN : Z := 1.
Definition GOT_DRDNFLAGSTR : Z := 2.
Definition GOT_ALLNEWRDNFLAGS : Z := Z.lor GOT_NEWRDN GOT_DRDNFLAGSTR.

(** The [for] loop over the arguments: [inl rc] when the loop returns [rc]
    from the function, [inr (state, drdnflag, newrdn)] when it runs to the
    end of the items. *)
Fixpoint modrdn_loop (mi : list Mi) (state drdnflag : Z)
    (newrdn : option string) : M (Z + Z * Z * option string) :=
  match mi with
  | [] => ret (inr (state, drdnflag, newrdn))
  | m :: mi' =>
      if strcmp (mi_type m) T_NEWRDNSTR =? 0 then
        modrdn_loop mi' (Z.lor state GOT_NEWRDN) drdnflag (Some (mi_val m))
      else if strcmp (mi_type m) T_DRDNFLAGSTR =? 0 then
        let state := Z.lor state GOT_DRDNFLAGSTR in
        if strcmp (mi_val m) "0" =? 0 then modrdn_loop mi' state 0 newrdn
        else if strcmp (mi_val m) "1" =? 0 then modrdn_loop mi' state 1 newrdn
        else
          debug LDAP_DEBUG_ANY
            ("Error: op_ldap_modrdn: bad deleteoldrdn arg " +++ quoted "%s"
               +++ nl)
            (Str (mi_val m)) (Int 0) (Int 0) ;;
          set_errmsg (Some "Incorrect argument to deleteoldrdn") ;;
          ret (inl (-1))
      else
        debug LDAP_DEBUG_ANY
          ("Error: op_ldap_modrdn: bad type " +++ quoted "%s" +++ nl)
          (Str (mi_type m)) (Int 0) (Int 0) ;;
        set_errmsg (Some "Bad value in replication log entry") ;;
        ret (inl (-1))
  end.

(** After the loop [mi] still points to the first item: [mi->mi_val] is the
    value of [re_mods[ 0 ]].  The [Debug] of the [LDAP_DEBUG] block is
    recorded like the others. *)
Definition op_ldap_modrdn (re : Re) : M Z :=
  match re_mods re with
  | None =>
      set_errmsg (Some "No arguments given") ;;
      debug LDAP_DEBUG_ANY ("Error: op_ldap_modrdn: no arguments" +++ nl)
        (Int 0) (Int 0) (Int 0) ;;
      ret (-1)
  | Some mi =>
      r <- modrdn_loop mi 0 (-1) None ;;
      match r with
      | inl rc => ret rc
      | inr (state, drdnflag, newrdn) =>
          if negb (state =? GOT_ALLNEWRDNFLAGS) then
            debug LDAP_DEBUG_ANY
              ("Error: op_ldap_modrdn: missing arguments" +++ nl)
              (Int 0) (Int 0) (Int 0) ;;
            set_errmsg
              (Some ("Missing argument: requires " +++ quoted "newrdn"
                       +++ " and " +++ quoted "deleteoldrdn")) ;;
            ret (-1)
          else
            match mi with
            | [] => raise PAST_TERMINATOR
            | m0 :: _ =>
                host <- ri_get ri_hostname ;;
                port <- ri_get ri_port ;;
                debug LDAP_DEBUG_ARGS
                  ("replica %s - modify rdn %s (flag: %d)" +++ nl)
                  (Sprintf "%s:%d" (Str host) (Int port))
                  (Sprintf ("(" +++ quoted "%s" +++ " -> " +++ quoted "%s"
                              +++ ")")
                     (Str (re_dn re)) (Str (mi_val m0)))
                  (Int drdnflag) ;;
                ld <- ri_get ri_ldp ;;
                rc <- do_call
                        (ldap_modrdn2_s ld (re_dn re) (mi_val m0) drdnflag) ;;
                ldp_get ld_errno
            end
      end
  end.

(** ** [do_unbind] *)

(** The pointer [ri] itself. *)
Definition ri_ptr : M (option Ri) := fun s => Ret (ri s) s.

Definition do_unbind : M Z :=
  p <- ri_ptr ;;
  match p with
  | Some r =>
      match ri_ldp r with
      | Some ld =>
          rc <- do_call (ldap_unbind (Some ld)) ;;
          (if negb (rc =? LDAP_SUCCESS) then
             debug LDAP_DEBUG_ANY
               ("Error: do_unbind: ldap_unbind failed for %s:%d: %s" +++ nl)
               (Str (ldap_err2string rc)) (Str (ri_hostname r))
               (Int (ri_port r))
           else ret tt) ;;
          ri_set (set_ri_ldp None) ;;
          ret rc
      | None => ret LDAP_SUCCESS
      end
  | None => ret LDAP_SUCCESS
  end.

(** ** [read_krbnames] *)

Definition kattrs : list string := ["kerberosName"].
Definition kst : Z * Z := (30, 0).

Definition read_krbnames : M (option (list string)) :=
  ld <- ri_get ri_ldp ;;
  host <- ri_get ri_hostname ;;
  port <- ri_get ri_port ;;
  dn <- ri_get ri_bind_dn ;;
  rc <- do_call (ldap_simple_bind_s ld None None) ;;
  if negb (rc =? LDAP_SUCCESS) then
    debug LDAP_DEBUG_ANY
      ("Error: null bind failed getting krbnames for %s:%d: %s" +++ nl)
      (Str host) (Int port) (Str (ldap_err2string rc)) ;;
    ret None
  else
    p <- do_call (ldap_search_st ld dn LDAP_SCOPE_BASE "objectclass=*"
                    kattrs 0 kst) ;;
    let (rc, result) := p in
    if negb (rc =? LDAP_SUCCESS) then
      debug LDAP_DEBUG_ANY
        ("Error: search failed getting krbnames for %s:%d: %s" +++ nl)
        (Str host) (Int port) (Str (ldap_err2string rc)) ;;
      ret None
    else
      ne <- do_call (ldap_count_entries ld result) ;;
      if ne =? 0 then
        debug LDAP_DEBUG_ANY
          ("Error: Can't find entry " +++ quoted "%s"
             +++ " for %s:%d kerberos bind" +++ nl)
          (Str dn) (Str host) (Int port) ;;
        ret None
      else if 1 <? ne then
        debug LDAP_DEBUG_ANY
          ("Error: Kerberos binddn " +++ quoted "%s"
             +++ " for %s:%dis ambiguous" +++ nl)
          (Str dn) (Str host) (Int port) ;;
        ret None
      else
        entry <- do_call (ldap_first_entry ld result) ;;
        match entry with
        | None =>
            debug LDAP_DEBUG_ANY
              ("Error: Can't find " +++ quoted "%s"
                 +++ " for kerberos binddn for %s:%d" +++ nl)
              (Str dn) (Str host) (Int port) ;;
            ret None
        | Some _ =>
            krbnames <- do_call (ldap_get_values ld entry "kerberosName") ;;
            do_call (ldap_msgfree result) ;;
            ret krbnames
        end.

(** ** [do_bind]

    The result is the pair of the value returned and of [*lderr]. *)

(** The loop over [krbnames]: the name at which it stops with a ticket
    ([krbnames[ kni ]] with [got_tgt] set), or [None] when it runs to the
    end. *)
Fixpoint tgt_loop (krbnames : list string) : M (option string) :=
  match krbnames with
  | [] => ret None
  | k :: rest =>
      p <- do_call (kname_parse k) ;;
      let '(rc, (name, instance, realm)) := p in
      if negb (rc =? KSUCCESS) then tgt_loop rest
      else
        let realm := upcase realm in
        srvtab <- ri_get ri_srvtab ;;
        rc <- do_call (krb_get_svc_in_tkt name instance realm "krbtgt" realm
                         1 srvtab) ;;
        if negb (rc =? KSUCCESS) then
          debug LDAP_DEBUG_ANY ("Error: Can't get TGT for %s: %s" +++ nl)
            (Str k) (Str (krb_err_txt rc)) (Int 0) ;;
          tgt_loop rest
        else ret (Some k)
  end.

(** The [AUTH_KERBEROS] case when [KERBEROS] is defined. *)
Definition kerberos_bind : M (Z * Z) :=
  host <- ri_get ri_hostname ;;
  port <- ri_get ri_port ;;
  dn <- ri_get ri_bind_dn ;;
  principal <- ri_get ri_principal ;;
  krbnames <- match principal with
              | Some p => ret (Some [p])
              | None => read_krbnames
              end ;;
  out <- match krbnames with
         | None | Some [] =>
             debug LDAP_DEBUG_ANY
               ("Error: Can't find krbname for binddn " +++ quoted "%s"
                  +++ nl)
               (Str dn) (Int 0) (Int 0) ;;
             ret (BIND_ERR_KERBEROS_FAILED, 0)
         | Some names =>
             got <- tgt_loop names ;;
             match got with
             | None =>
                 debug LDAP_DEBUG_ANY
                   ("Error: Could not obtain TGT for DN " +++ quoted "%s"
                      +++ nl)
                   (Str dn) (Int 0) (Int 0) ;;
                 ret (BIND_ERR_KERBEROS_FAILED, 0)
             | Some k =>
                 debug LDAP_DEBUG_ARGS
                   ("bind to %s:%d as %s (kerberos)" +++ nl)
                   (Str host) (Int port) (Str dn) ;;
                 ld <- ri_get ri_ldp ;;
                 ldrc <- do_call (ldap_kerberos_bind_s ld dn) ;;
                 copy <- do_call (strdup k) ;;
                 ri_set (set_ri_principal copy) ;;
                 if negb (ldrc =? LDAP_SUCCESS) then
                   debug LDAP_DEBUG_ANY
                     ("Error: kerberos bind for %s:%dfailed: %s" +++ nl)
                     (Str host) (Int port) (Str (ldap_err2string ldrc)) ;;
                   ret (BIND_ERR_KERBEROS_FAILED, ldrc)
                 else ret (0, 0)
             end
         end ;;
  (* kexit: *)
  match krbnames with
  | Some names => do_call (ldap_value_free names)
  | None => ret tt
  end ;;
  ret out.

Definition do_bind : M (Z * Z) :=
  p <- ri_ptr ;;
  match p with
  | None =>
      debug LDAP_DEBUG_ANY ("Error: do_bind: null ri ptr" +++ nl)
        (Int 0) (Int 0) (Int 0) ;;
      ret (BIND_ERR_BADRI, 0)
  | Some r =>
      let host := ri_hostname r in
      let port := ri_port r in
      match ri_ldp r with
      | Some ld =>
          ldrc <- do_call (ldap_unbind (Some ld)) ;;
          (if negb (ldrc =? LDAP_SUCCESS) then
             debug LDAP_DEBUG_ANY
               ("Error: do_bind: ldap_unbind failed: %s" +++ nl)
               (Str (ldap_err2string ldrc)) (Int 0) (Int 0)
           else ret tt) ;;
          ri_set (set_ri_ldp None)
      | None => ret tt
      end ;;
      debug LDAP_DEBUG_ARGS ("Open connection to %s:%d" +++ nl)
        (Str host) (Int port) (Int 0) ;;
      ld <- do_call (ldap_open host port) ;;
      ri_set (set_ri_ldp ld) ;;
      match ld with
      | None =>
          e <- (fun s => Ret (sys_errlist (errno (world s))) s) ;;
          debug LDAP_DEBUG_ANY ("Error: ldap_open(%s, %d) failed: %s" +++ nl)
            (Str host) (Int port) (Str e) ;;
          ret (BIND_ERR_OPEN, 0)
      | Some _ =>
          (if LDAP_REFERRALS then
             ldp_update_options
               (fun o => Z.land o (Z.lnot LDAP_OPT_REFERRALS))
           else ret tt) ;;
          ldp_update_options (fun o => Z.lor o LDAP_OPT_RESTART) ;;
          let method := ri_bind_method r in
          if method =? AUTH_KERBEROS then
            if KERBEROS then kerberos_bind
            else
              debug LDAP_DEBUG_ANY
                ("Error: Kerberos bind for %s:%d, but not compiled w/kerberos"
                   +++ nl)
                (Str host) (Int port) (Int 0) ;;
              ret (BIND_ERR_KERBEROS_FAILED, 0)
          else if method =? AUTH_SIMPLE then
            debug LDAP_DEBUG_ARGS ("bind to %s:%d as %s (simple)" +++ nl)
              (Str host) (Int port) (Str (ri_bind_dn r)) ;;
            ldrc <- do_call (ldap_simple_bind_s ld (Some (ri_bind_dn r))
                               (Some (ri_password r))) ;;
            if negb (ldrc =? LDAP_SUCCESS) then
              debug LDAP_DEBUG_ANY
                ("Error: ldap_simple_bind_s for %s:%d failed: %s" +++ nl)
                (Str host) (Int port) (Str (ldap_err2string ldrc)) ;;
              ret (BIND_ERR_SIMPLE_FAILED, ldrc)
            else ret (BIND_OK, 0)
          else
            debug LDAP_DEBUG_ANY
              ("Error: do_bind: unknown auth type " +++ quoted "%d"
                 +++ " for %s:%d" +++ nl)
              (Int method) (Str host) (Int port) ;;
            ret (BIND_ERR_BAD_ATYPE, 0)
      end
  end.

(** ** [do_ldap] *)

(** The message of the [Debug] after a failed operation:
    [*errmsg ? *errmsg : ldap_err2string( lderr )]. *)
Definition failure_text (lderr : Z) : M string :=
  e <- get_errmsg ;;
  match e with
  | Some m => ret m
  | None => ret (ldap_err2string lderr)
  end.

Definition report (lderr : Z) (fmt : string) (re : Re) : M unit :=
  if negb (lderr =? LDAP_SUCCESS) then
    t <- failure_text lderr ;;
    debug LDAP_DEBUG_ANY fmt (Str t) (Str (re_dn re)) (Int 0)
  else ret tt.

(** The [switch] on the change type: [inl lderr] when an operation was run,
    [inr v] when the [default:] case returns [v] from [do_ldap]. *)
Definition dispatch (re : Re) : M (Z + Z) :=
  let ct := re_changetype re in
  if ct =? T_ADDCT then
    lderr <- op_ldap_add re ;;
    report lderr
      ("Error: ldap_add_s failed adding " +++ quoted "%s" +++ ": %s" +++ nl)
      re ;;
    ret (inl lderr)
  else if ct =? T_MODIFYCT then
    lderr <- op_ldap_modify re ;;
    report lderr
      ("Error: ldap_modify_s failed modifying " +++ quoted "%s" +++ ": %s"
         +++ nl) re ;;
    ret (inl lderr)
  else if ct =? T_DELETECT then
    lderr <- op_ldap_delete re ;;
    report lderr
      ("Error: ldap_delete_s failed deleting " +++ quoted "%s" +++ ": %s"
         +++ nl) re ;;
    ret (inl lderr)
  else if ct =? T_MODRDNCT then
    lderr <- op_ldap_modrdn re ;;
    report lderr
      ("Error: ldap_modrdn_s failed modifying %s: %s" +++ nl) re ;;
    ret (inl lderr)
  else
    debug LDAP_DEBUG_ANY
      ("Error: do_ldap: bad op " +++ quoted "%d" +++ ", dn = " +++ quoted "%s"
         +++ nl)
      (Int ct) (Str (re_dn re)) (Int 0) ;;
    ret (inr DO_LDAP_ERR_FATAL).

(** The [while ( retry > 0 )] loop, by the value of [retry]. *)
Fixpoint do_ldap_loop (retry : nat) (re : Re) : M Z :=
  match retry with
  | O => ret DO_LDAP_ERR_FATAL
  | S retry' =>
      ldp <- ri_get ri_ldp ;;
      bound <- match ldp with
               | None => p <- do_bind ;; ret (fst p =? BIND_OK)
               | Some _ => ret true
               end ;;
      if negb bound then ret DO_LDAP_ERR_RETRYABLE
      else
        d <- dispatch re ;;
        match d with
        | inr v => ret v
        | inl lderr =>
            if lderr =? LDAP_SUCCESS then ret DO_LDAP_OK
            else if lderr =? LDAP_SERVER_DOWN then
              do_unbind ;; do_ldap_loop retry' re
            else ret DO_LDAP_ERR_FATAL
        end
  end.

Definition do_ldap (re : Re) : M Z :=
  set_errmsg None ;;
  do_ldap_loop 2 re.

End Model.

Arguments Ret {lib A} a s.
Arguments Fault {lib A} f s.

Notation "x <- m ;; k" := (bind m (fun x => k))
  (at level 100, m at next level, right associativity).
Notation "m ;; k" := (bind m (fun _ => k))
  (at level 100, right associativity).

(** ** A set of constants and a library to run the model on

    [headers_1x] assigns the constants as the OpenLDAP 1.x headers do, for a
    build without Kerberos; only the runs at the end of the file depend on
    these values.  [scripted] is a library driven by a script: each call takes
    the next number of the script as its result ([0] once the script is used
    up), and [ld_errno] is the last number taken. *)

Definition headers_1x : Headers := {|
  LDAP_SUCCESS := 0;
  LDAP_SERVER_DOWN := 81;
  LDAP_MOD_ADD := 0;
  LDAP_MOD_DELETE := 1;
  LDAP_MOD_REPLACE := 2;
  LDAP_MOD_BVALUES := 128;
  LDAP_OPT_REFERRALS := 2;
  LDAP_OPT_RESTART := 4;
  LDAP_SCOPE_BASE := 0;
  KSUCCESS := 0;
  BIND_OK := 0;
  BIND_ERR_OPEN := 2;
  BIND_ERR_BAD_ATYPE := 3;
  BIND_ERR_SIMPLE_FAILED := 4;
  BIND_ERR_KERBEROS_FAILED := 5;
  BIND_ERR_BADRI := 6;
  DO_LDAP_OK := 0;
  DO_LDAP_ERR_RETRYABLE := 1;
  DO_LDAP_ERR_FATAL := 2;
  AUTH_SIMPLE := 1;
  AUTH_KERBEROS := 2;
  T_ADDCT := 4;
  T_MODIFYCT := 5;
  T_DELETECT := 6;
  T_MODRDNCT := 7;
  T_MODOPADDSTR := "add";
  T_MODOPADD := 8;
  T_MODOPREPLACESTR := "replace";
  T_MODOPREPLACE := 9;
  T_MODOPDELETESTR := "delete";
  T_MODOPDELETE := 10;
  T_MODSEPSTR := "-";
  T_MODSEP := 11;
  T_NEWRDNSTR := "newrdn";
  T_DRDNFLAGSTR := "deleteoldrdn";
  T_ERR := -1;
  KERBEROS := false;
  LDAP_REFERRALS := true
|}.

Record script := { answers : list Z; last : Z; options : Z }.

Definition next (w : script) : Z * script :=
  match answers w with
  | [] => (0, {| answers := []; last := 0; options := options w |})
  | a :: rest => (a, {| answers := rest; last := a; options := options w |})
  end.

Definition scripted_perform (T : Type) (c : call T) (w : script) : T * script :=
  let (a, w') := next w in
  match c in call T return T * script with
  | ldap_open _ _ => (if a =? 0 then Some 1 else None, w')
  | ldap_unbind _ => (a, w')
  | ldap_simple_bind_s _ _ _ => (a, w')
  | ldap_kerberos_bind_s _ _ => (a, w')
  | ldap_add_s _ _ _ => (a, w')
  | ldap_modify_s _ _ _ => (a, w')
  | ldap_delete_s _ _ => (a, w')
  | ldap_modrdn2_s _ _ _ _ => (a, w')
  | ldap_search_st _ _ _ _ _ _ _ => ((a, Some 1), w')
  | ldap_count_entries _ _ => (1, w')
  | ldap_first_entry _ _ => (Some 1, w')
  | ldap_get_values _ _ _ => (Some ["slurpd@EXAMPLE.ORG"], w')
  | ldap_msgfree _ => (a, w')
  | ldap_value_free _ => (tt, w')
  | kname_parse n => ((a, (n, "", "EXAMPLE.ORG")), w')
  | krb_get_svc_in_tkt _ _ _ _ _ _ _ => (a, w')
  | strdup s => (Some s, w')
  end.

Definition scripted : Library := {|
  World := script;
  perform := scripted_perform;
  ld_errno := fun _ w => last w;
  ld_options := fun _ w => options w;
  set_ld_options := fun _ o w =>
    {| answers := answers w; last := last w; options := o |};
  ldap_err2string := fun _ => "error";
  krb_err_txt := fun _ => "error";
  sys_errlist := fun _ => "error";
  errno := fun _ => 0
|}.

(** A replica [replica.example.org:389] bound with a simple password, its
    session open or not, and the state of a run on it that starts with the
    script [a]. *)
Definition replica (ldp : option LDAP) (method : Z) : Ri :=
  {| ri_hostname := "replica.example.org"; ri_port := 389; ri_ldp := ldp;
     ri_bind_method := method; ri_bind_dn := "cn=slurpd";
     ri_password := "secret"; ri_principal := None; ri_srvtab := "" |}.

Definition start (r : Ri) (a : list Z) : @St scripted :=
  @Build_St scripted (Some r) None
    {| answers := a; last := 0; options := 0 |} [].

Definition item (type value : string) : Mi :=
  {| mi_type := type; mi_val := value;
     mi_len := Z.of_nat (String.length value) |}.

(** Entries for the entry [cn=Barbara Jensen,o=Example]. *)
Definition entry (changetype : Z) (mods : option (list Mi)) : Re :=
  {| re_changetype := changetype; re_dn := "cn=Barbara Jensen,o=Example";
     re_mods := mods |}.

(** The constants of [headers_1x] for a build with Kerberos. *)
Definition headers_1x_kerberos : Headers := {|
  LDAP_SUCCESS := 0;
  LDAP_SERVER_DOWN := 81;
  LDAP_MOD_ADD := 0;
  LDAP_MOD_DELETE := 1;
  LDAP_MOD_REPLACE := 2;
  LDAP_MOD_BVALUES := 128;
  LDAP_OPT_REFERRALS := 2;
  LDAP_OPT_RESTART := 4;
  LDAP_SCOPE_BASE := 0;
  KSUCCESS := 0;
  BIND_OK := 0;
  BIND_ERR_OPEN := 2;
  BIND_ERR_BAD_ATYPE := 3;
  BIND_ERR_SIMPLE_FAILED := 4;
  BIND_ERR_KERBEROS_FAILED := 5;
  BIND_ERR_BADRI := 6;
  DO_LDAP_OK := 0;
  DO_LDAP_ERR_RETRYABLE := 1;
  DO_LDAP_ERR_FATAL := 2;
  AUTH_SIMPLE := 1;
  AUTH_KERBEROS := 2;
  T_ADDCT := 4;
  T_MODIFYCT := 5;
  T_DELETECT := 6;
  T_MODRDNCT := 7;
  T_MODOPADDSTR := "add";
  T_MODOPADD := 8;
  T_MODOPREPLACESTR := "replace";
  T_MODOPREPLACE := 9;
  T_MODOPDELETESTR := "delete";
  T_MODOPDELETE := 10;
  T_MODSEPSTR := "-";
  T_MODSEP := 11;
  T_NEWRDNSTR := "newrdn";
  T_DRDNFLAGSTR := "deleteoldrdn";
  T_ERR := -1;
  KERBEROS := true;
  LDAP_REFERRALS := true
|}.

(** ** Reading a log *)

Definition is_call (e : event) : bool :=
  match e with
  | Call _ => true
  | Debug _ _ _ _ _ => false
  end.

(** The calls that reach the replica: everything but the bookkeeping of the
    Kerberos and memory routines. *)
Definition is_network (e : event) : bool :=
  match e with
  | Call c =>
      match c with
      | ldap_open _ _ | ldap_unbind _ | ldap_simple_bind_s _ _ _
      | ldap_kerberos_bind_s _ _ | ldap_add_s _ _ _ | ldap_modify_s _ _ _
      | ldap_delete_s _ _ | ldap_modrdn2_s _ _ _ _
      | ldap_search_st _ _ _ _ _ _ _ => true
      | _ => false
      end
  | Debug _ _ _ _ _ => false
  end.

(** The operations on entries. *)
Definition is_operation (e : event) : bool :=
  match e with
  | Call c =>
      match c with
      | ldap_add_s _ _ _ | ldap_modify_s _ _ _ | ldap_delete_s _ _
      | ldap_modrdn2_s _ _ _ _ => true
      | _ => false
      end
  | Debug _ _ _ _ _ => false
  end.

(** ** Vocabulary of the properties *)

Section Vocabulary.

Context {hd : Headers} {lib : Library}.

(** The state [s] with the events [evs] added to its log. *)
Definition log_more (evs : list event) (s : St) : St :=
  {| ri := ri s; errmsg := errmsg s; world := world s;
     log := log s ++ evs |}.

(** What the library answers to the call [c] made in the state [s], and the
    state after the call. *)
Definition answer {T} (c : call T) (s : St) : T :=
  fst (perform T c (world s)).

Definition after_call {T} (c : call T) (s : St) : St :=
  {| ri := ri s; errmsg := errmsg s; world := snd (perform T c (world s));
     log := log s ++ [Call c] |}.

(** The state with another world. *)
Definition with_world (w : World) (s : St) : St :=
  {| ri := ri s; errmsg := errmsg s; world := w; log := log s |}.

(** The state with another message behind [errmsg]; [do_ldap] starts with
    [with_errmsg None]. *)
Definition with_errmsg (m : option string) (s : St) : St :=
  {| ri := ri s; errmsg := m; world := world s; log := log s |}.

(** The kind of a line of a modify entry, as the [switch] of
    [op_ldap_modify] sorts it: a separator, an operator (with the tag and the
    operation of its case), or a plain attribute line ([default:]). *)
Inductive line :=
| Separator
| Operator (t op : Z)
| Plain.

Definition classify (m : Mi) : line :=
  let t := getmodtype (mi_type m) in
  if t =? T_MODSEP then Separator
  else if t =? T_MODOPADD then Operator T_MODOPADD LDAP_MOD_ADD
  else if t =? T_MODOPREPLACE then Operator T_MODOPREPLACE LDAP_MOD_REPLACE
  else if t =? T_MODOPDELETE then Operator T_MODOPDELETE LDAP_MOD_DELETE
  else Plain.

Definition is_plain (m : Mi) : bool :=
  match classify m with Plain => true | _ => false end.

Definition is_separator (m : Mi) : bool :=
  match classify m with Separator => true | _ => false end.

Definition is_operator (m : Mi) : bool :=
  match classify m with Operator _ _ => true | _ => false end.

(** A plain line comes after a separator. *)
Fixpoint plain_after_separator (mi : list Mi) : bool :=
  match mi with
  | [] => false
  | m :: mi' =>
      if is_separator m then existsb is_plain mi'
      else plain_after_separator mi'
  end.

(** The struct that [ldm] points to. *)
Definition current_group (l : locals) : option LDAPMod :=
  match ldm l with
  | Some k => nth_error (ch_realloc (ldmarr l)) k
  | None => None
  end.

(** No operator line has been met: [ldmarr] is still NULL and [ldm] has not
    been assigned. *)
Definition no_group (l : locals) : Prop :=
  ldmarr l = None /\ nops l = 0 /\ ldm l = None.

(** An operator line has been met: [ldmarr] holds [nops] structs, [ldm]
    points to the last of them, whose type is set and which holds [nvals]
    values. *)
Definition group_open (l : locals) : Prop :=
  exists arr g t,
    ldmarr l = Some arr /\
    nops l = Z.of_nat (List.length arr) /\
    ldm l = Some (Nat.pred (List.length arr)) /\
    nth_error arr (Nat.pred (List.length arr)) = Some g /\
    mod_type g = Some t /\
    nvals l = Z.of_nat (List.length (ch_realloc (mod_bvalues g))).

(** The two messages of [op_ldap_modify]'s [default:] case. *)
Definition unknown_mod_type (m : Mi) : event :=
  Debug LDAP_DEBUG_ANY
    ("Error: op_ldap_modify: unknown mod type " +++ quoted "%s" +++ nl)
    (Str (mi_type m)) (Int 0) (Int 0).

Definition malformed_modify_op (m : Mi) (expected : string) : event :=
  Debug LDAP_DEBUG_ANY
    ("Error: malformed modify op, %s: %s (expecting %s:)" +++ nl)
    (Str (mi_type m)) (Str (mi_val m)) (Str expected).

(** The steps of [m] leave the pointer [ri] non-NULL when it is. *)
Definition keeps_ri {A} (m : M A) : Prop :=
  forall s a s', ri s <> None -> m s = Ret a s' -> ri s' <> None.

(** The head of an iteration of [do_ldap]'s loop succeeds from [s] and leaves
    the state [s1]: the session is there, or [do_bind] returns [BIND_OK]. *)
Definition session_ready (s s1 : St) : Prop :=
  exists r, ri s = Some r /\
    match ri_ldp r with
    | Some _ => s1 = s
    | None => exists e, do_bind s = Ret (BIND_OK, e) s1
    end.

(** What [do_ldap]'s loop does with the outcome [d] of the [switch], when
    [retry] attempts are left after this one. *)
Definition after_dispatch (retry : nat) (re : Re) (d : Z + Z) : M Z :=
  match d with
  | inr v => ret v
  | inl lderr =>
      if lderr =? LDAP_SUCCESS then ret DO_LDAP_OK
      else if lderr =? LDAP_SERVER_DOWN then
        do_unbind ;; do_ldap_loop retry re
      else ret DO_LDAP_ERR_FATAL
  end.

(** An operation rejects an entry when it returns an error code without
    having called the replica. *)
Definition rejects (op : M Z) (s : St) : Prop :=
  exists rc s', op s = Ret rc s' /\ rc <> LDAP_SUCCESS /\
                filter is_operation (log s') = filter is_operation (log s).

(** [do_bind] fails without a call that reaches the network. *)
Definition fails_without_network (s : St) : Prop :=
  exists rc e s', do_bind s = Ret (rc, e) s' /\ rc <> BIND_OK /\
                  filter is_network (log s') = filter is_network (log s).

(** [do_ldap] gives the result [v] for [re] without an operation on the
    replica. *)
Definition answers_without_operation (re : Re) (v : Z) (s : St) : Prop :=
  exists s', do_ldap re s = Ret v s' /\
             filter is_operation (log s') = filter is_operation (log s).


(** ** Vocabulary of the further properties *)


(** The replica has a session. *)
Definition has_session (s : St) : Prop :=
  exists r ld, ri s = Some r /\ ri_ldp r = Some ld.

(** The replica is there and has no session. *)
Definition no_session (s : St) : Prop :=
  exists r, ri s = Some r /\ ri_ldp r = None.

(** The state with another replica struct behind [ri]. *)
Definition with_ri (r : Ri) (s : St) : St :=
  {| ri := Some r; errmsg := errmsg s; world := world s; log := log s |}.

(** The world after [do_bind] has set the options of the handle [h]:
    referrals off when [LDAP_REFERRALS] is defined, restart on. *)
Definition configured (h : LDAP) (w : World) : World :=
  let w1 := if LDAP_REFERRALS
            then set_ld_options h
                   (Z.land (ld_options h w) (Z.lnot LDAP_OPT_REFERRALS)) w
            else w in
  set_ld_options h (Z.lor (ld_options h w1) LDAP_OPT_RESTART) w1.

(** The steps of [m] leave a replica that has a session with one. *)
Definition keeps_session {A} (m : M A) : Prop :=
  forall s a s', has_session s -> m s = Ret a s' -> has_session s'.

(** The steps of [m] do not write to the replica struct. *)
Definition fixes_ri {A} (m : M A) : Prop :=
  forall s a s', m s = Ret a s' -> ri s' = ri s.











(** The state that a run ends in, with a result or at a fault. *)
Definition final {A} (x : res A) : St :=
  match x with
  | Ret _ s => s
  | Fault _ s => s
  end.

(** Whatever the run of [m] does, it only adds to the log, and at most [n]
    events that [P] holds of. *)
Definition adds {A} (P : event -> bool) (n : nat) (m : M A) : Prop :=
  forall s, exists evs,
    log (final (m s)) = log s ++ evs /\
    (List.length (filter P evs) <= n)%nat.

(** The calls that open a connection; the calls that are not operations on
    entries. *)
Definition is_open (e : event) : bool :=
  match e with
  | Call c => match c with ldap_open _ _ => true | _ => false end
  | Debug _ _ _ _ _ => false
  end.

Definition is_session_call (e : event) : bool :=
  is_call e && negb (is_operation e).

End Vocabulary.

(** * Properties *)

Section Properties.

Context {hd : Headers} {lib : Library}.

(** ** The log only grows *)

Lemma log_more_nil (s : St) : log_more [] s = s.
Proof. destruct s; unfold log_more; simpl; now rewrite app_nil_r. Qed.

Lemma log_more_more (a b : list event) (s : St) :
  log_more b (log_more a s) = log_more (a ++ b) s.
Proof. unfold log_more; simpl; now rewrite app_assoc. Qed.

Lemma ri_log_more (evs : list event) (s : St) : ri (log_more evs s) = ri s.
Proof. reflexivity. Qed.

(** ** Running a sequence of steps *)

Lemma bind_ret {A B} (a : A) (k : A -> M B) (s : St) :
  bind (ret a) k s = k a s.
Proof. reflexivity. Qed.

Lemma bind_Ret {A B} (m : M A) (k : A -> M B) (s s' : St) (a : A) :
  m s = Ret a s' -> bind m k s = k a s'.
Proof. intros E; unfold bind; now rewrite E. Qed.

Lemma bind_Fault {A B} (m : M A) (k : A -> M B) (s s' : St) (f : fault) :
  m s = Fault f s' -> bind m k s = Fault f s'.
Proof. intros E; unfold bind; now rewrite E. Qed.

Lemma bind_bind {A B C} (m : M A) (f : A -> M B) (g : B -> M C) (s : St) :
  bind (bind m f) g s = bind m (fun x => bind (f x) g) s.
Proof. unfold bind; now destruct (m s). Qed.

Lemma bind_ri_get {A B} (field : Ri -> A) (k : A -> M B) (s : St) (r : Ri) :
  ri s = Some r -> bind (ri_get field) k s = k (field r) s.
Proof. intros E; unfold bind, ri_get; now rewrite E. Qed.

Lemma bind_ri_set {B} (upd : Ri -> Ri) (k : unit -> M B) (s : St) (r : Ri) :
  ri s = Some r ->
  bind (ri_set upd) k s
  = k tt {| ri := Some (upd r); errmsg := errmsg s; world := world s;
            log := log s |}.
Proof. intros E; unfold bind, ri_set; now rewrite E. Qed.

Lemma bind_ri_ptr {B} (k : option Ri -> M B) (s : St) :
  bind ri_ptr k s = k (ri s) s.
Proof. reflexivity. Qed.

Lemma bind_debug {B} lv fmt a1 a2 a3 (k : unit -> M B) (s : St) :
  bind (debug lv fmt a1 a2 a3) k s
  = k tt (log_more [Debug lv fmt a1 a2 a3] s).
Proof. reflexivity. Qed.

Lemma bind_set_errmsg {B} (m : option string) (k : unit -> M B) (s : St) :
  bind (set_errmsg m) k s = k tt (with_errmsg m s).
Proof. reflexivity. Qed.

Lemma bind_do_call {T B} (c : call T) (k : T -> M B) (s : St) :
  bind (do_call c) k s = k (answer c s) (after_call c s).
Proof.
  unfold bind, do_call, answer, after_call.
  now destruct (perform T c (world s)).
Qed.

(** [run r Hr] runs the steps at the head of the goal that need no case
    analysis, for a replica [r] with [Hr : ri _ = Some r]. *)
Ltac run_one r Hr :=
  first
    [ rewrite bind_bind
    | rewrite bind_ret
    | rewrite bind_debug
    | rewrite bind_set_errmsg
    | rewrite bind_do_call
    | rewrite (bind_ri_get _ _ _ r) by exact Hr ].

Ltac run r Hr := repeat (run_one r Hr; cbv beta).

(** Closes a goal that compares the calls of two logs, the second of which
    extends the first with messages. *)
Ltac same_calls :=
  cbn [log log_more with_errmsg]; rewrite ?filter_app;
  cbn [filter is_call is_operation]; rewrite ?app_nil_r; reflexivity.

(** ** Stores into the arrays *)

Lemma store_append {A} (arr : list A) (n : Z) (x : A) (s : St) :
  n = Z.of_nat (List.length arr) -> store arr n x s = Ret (arr ++ [x]) s.
Proof. intros ->; unfold store; now rewrite Z.eqb_refl. Qed.

Lemma store_replace {A} (arr : list A) (k : nat) (x : A) (s : St) :
  (k < List.length arr)%nat ->
  store arr (Z.of_nat k) x s
  = Ret (firstn k arr ++ x :: skipn (S k) arr) s.
Proof.
  intros Hk; unfold store.
  destruct (Z.eqb_spec (Z.of_nat k) (Z.of_nat (List.length arr))) as [E|_];
    [lia|].
  replace ((0 <=? Z.of_nat k) && (Z.of_nat k <? Z.of_nat (List.length arr)))
    with true by (symmetry; apply andb_true_iff; split;
                  [apply Z.leb_le | apply Z.ltb_lt]; lia).
  now rewrite Nat2Z.id.
Qed.

Lemma terminate_full {A} (arr : list A) (n : Z) (s : St) :
  n = Z.of_nat (List.length arr) -> terminate arr n s = Ret arr s.
Proof.
  intros ->; unfold terminate.
  replace ((0 <=? Z.of_nat (List.length arr))
           && (Z.of_nat (List.length arr) <=? Z.of_nat (List.length arr)))
    with true by (symmetry; apply andb_true_iff; split; apply Z.leb_le; lia).
  now rewrite Nat2Z.id, firstn_all.
Qed.

(** ** One line of a modify entry, by its kind *)

Lemma step_separator (m : Mi) (l : locals) (s : St) :
  classify m = Separator ->
  modify_step m l s
  = Ret {| state := T_MODSEP; nvals := nvals l; nops := nops l;
           ldm := ldm l; ldmarr := ldmarr l |} s.
Proof.
  unfold classify, modify_step; cbv zeta.
  destruct (getmodtype (mi_type m) =? T_MODSEP); [reflexivity|].
  repeat (match goal with |- context [if ?b then _ else _] => destruct b end;
          try discriminate).
Qed.

Lemma step_operator (m : Mi) (t op : Z) (l : locals) (s : St) :
  classify m = Operator t op ->
  modify_step m l s = modify_open t op (mi_val m) l s.
Proof.
  unfold classify, modify_step; cbv zeta.
  repeat (match goal with |- context [if ?b then _ else _] => destruct b end;
          try discriminate; try (intros [= <- <-]; reflexivity)).
Qed.

Lemma step_plain (m : Mi) (l : locals) (s : St) :
  classify m = Plain ->
  modify_step m l s = modify_value (mi_type m) (mi_val m) (mi_len m) l s.
Proof.
  unfold classify, modify_step; cbv zeta.
  repeat (match goal with |- context [if ?b then _ else _] => destruct b end;
          try discriminate; try reflexivity).
Qed.

Lemma is_plain_classify (m : Mi) : is_plain m = true -> classify m = Plain.
Proof. unfold is_plain; now destruct (classify m). Qed.

Lemma is_separator_classify (m : Mi) :
  is_separator m = true -> classify m = Separator.
Proof. unfold is_separator; now destruct (classify m). Qed.

Lemma is_operator_classify (m : Mi) :
  is_operator m = true -> exists t op, classify m = Operator t op.
Proof. unfold is_operator; destruct (classify m); try discriminate; eauto. Qed.

(** A plain line is skipped with a message while the state is
    [AWAITING_OP]. *)
Lemma step_plain_awaiting (m : Mi) (l : locals) (s : St) :
  classify m = Plain -> state l = AWAITING_OP ->
  modify_step m l s = Ret l (log_more [unknown_mod_type m] s).
Proof.
  intros Hc Hs; rewrite (step_plain _ _ _ Hc); unfold modify_value.
  now rewrite Hs, Z.eqb_refl.
Qed.

Lemma loop_app (a b : list Mi) (l : locals) (s : St) :
  modify_loop (a ++ b) l s
  = match modify_loop a l s with
    | Ret l' s' => modify_loop b l' s'
    | Fault f s' => Fault f s'
    end.
Proof.
  revert l s; induction a as [|m a IH]; intros l s; simpl; [reflexivity|].
  unfold bind; destruct (modify_step m l s); [apply IH | reflexivity].
Qed.

Lemma loop_plain_awaiting (plains : list Mi) (l : locals) (s : St) :
  forallb is_plain plains = true -> state l = AWAITING_OP ->
  modify_loop plains l s = Ret l (log_more (map unknown_mod_type plains) s).
Proof.
  revert s; induction plains as [|m ps IH]; intros s Hp Hs; simpl.
  - now rewrite log_more_nil.
  - simpl in Hp; apply andb_true_iff in Hp as [Hm Hp].
    unfold bind; rewrite (step_plain_awaiting _ _ _ (is_plain_classify _ Hm) Hs).
    rewrite (IH _ Hp Hs), log_more_more; reflexivity.
Qed.

(** ** The loop of [op_ldap_modify] once a group is open *)

Lemma nth_error_last {A} (arr : list A) (x : A) :
  nth_error (arr ++ [x]) (List.length arr) = Some x.
Proof. rewrite nth_error_app2, Nat.sub_diag by lia; reflexivity. Qed.

Lemma nth_error_replaced {A} (arr : list A) (k : nat) (x : A) :
  (k < List.length arr)%nat ->
  nth_error (firstn k arr ++ x :: skipn (S k) arr) k = Some x.
Proof.
  intros Hk; rewrite nth_error_app2; rewrite firstn_length_le by lia;
    [now rewrite Nat.sub_diag | lia].
Qed.

Lemma length_replaced {A} (arr : list A) (k : nat) (x : A) :
  (k < List.length arr)%nat ->
  List.length (firstn k arr ++ x :: skipn (S k) arr) = List.length arr.
Proof.
  intros Hk; rewrite length_app, length_cons.
  rewrite firstn_length_le, length_skipn by lia; lia.
Qed.

Lemma open_gives_group (t op : Z) (value : string) (l : locals) (s : St) :
  no_group l \/ group_open l ->
  exists l', modify_open t op value l s = Ret l' s /\ group_open l' /\
             state l' = t.
Proof.
  intros Hl; unfold modify_open, bind.
  assert (E : nops l = Z.of_nat (List.length (ch_realloc (ldmarr l)))).
  { destruct Hl as [(Ha & Hn & _) | (arr & g & t' & Ha & Hn & _)];
      rewrite Ha; simpl; assumption. }
  rewrite (store_append _ _ _ _ E); unfold ret.
  eexists; split; [reflexivity|]; split; [|reflexivity].
  exists (ch_realloc (ldmarr l) ++
            [{| mod_op := Z.lor op LDAP_MOD_BVALUES; mod_type := Some value;
                mod_bvalues := mod_bvalues alloc_ldapmod |}]).
  eexists; exists value; simpl.
  rewrite length_app; simpl.
  replace (Nat.pred (List.length (ch_realloc (ldmarr l)) + 1))
    with (List.length (ch_realloc (ldmarr l))) by lia.
  repeat split.
  - rewrite E; lia.
  - rewrite E, Nat2Z.id; reflexivity.
  - apply nth_error_last.
  - reflexivity.
  - reflexivity.
Qed.

Lemma value_in_group (type value : string) (len : Z) (l : locals) (s : St) :
  group_open l ->
  exists l' evs,
    modify_value type value len l s = Ret l' (log_more evs s) /\
    group_open l' /\ state l' = state l /\ filter is_call evs = [].
Proof.
  intros (arr & g & t & Ha & Hn & Hl & Hg & Ht & Hv); unfold modify_value.
  destruct (state l =? AWAITING_OP).
  { exists l; eexists; split; [reflexivity|]; repeat split.
    now exists arr, g, t. }
  rewrite Hl, Ha; simpl; rewrite Hg, Ht.
  destruct (negb (strcasecmp type t =? 0)).
  { exists l; eexists; split; [reflexivity|]; repeat split.
    now exists arr, g, t. }
  assert (Hk : (Nat.pred (List.length arr) < List.length arr)%nat).
  { apply nth_error_Some; rewrite Hg; discriminate. }
  unfold bind.
  rewrite (store_append _ _ _ _ Hv); unfold ret.
  rewrite terminate_full by (rewrite length_app, Hv; simpl; lia).
  rewrite (store_replace _ _ _ _ Hk).
  eexists; exists []; split; [now rewrite log_more_nil|].
  split; [|split; reflexivity].
  eexists; eexists; exists t; simpl; rewrite length_replaced by exact Hk.
  repeat split; try assumption.
  - apply nth_error_replaced, Hk.
  - reflexivity.
  - simpl; rewrite length_app; simpl; lia.
Qed.

Lemma step_in_group (m : Mi) (l : locals) (s : St) :
  group_open l ->
  exists l' evs,
    modify_step m l s = Ret l' (log_more evs s) /\
    group_open l' /\ filter is_call evs = [].
Proof.
  intros Hl; destruct (classify m) as [|t op|] eqn:Hc.
  - rewrite (step_separator _ _ _ Hc).
    eexists; exists []; split; [now rewrite log_more_nil|]; split;
      [|reflexivity].
    destruct Hl as (arr & g & t & H); now exists arr, g, t.
  - rewrite (step_operator _ _ _ _ _ Hc).
    destruct (open_gives_group t op (mi_val m) l s (or_intror Hl))
      as (l' & E & Hl' & _).
    exists l', []; now rewrite log_more_nil.
  - rewrite (step_plain _ _ _ Hc).
    destruct (value_in_group (mi_type m) (mi_val m) (mi_len m) l s Hl)
      as (l' & evs & E & Hl' & _ & He).
    now exists l', evs.
Qed.

Lemma loop_in_group (mi : list Mi) (l : locals) (s : St) :
  group_open l ->
  exists l' evs,
    modify_loop mi l s = Ret l' (log_more evs s) /\
    group_open l' /\ filter is_call evs = [].
Proof.
  revert l s; induction mi as [|m mi IH]; intros l s Hl; simpl.
  - exists l, []; now rewrite log_more_nil.
  - destruct (step_in_group m l s Hl) as (l1 & e1 & E1 & Hl1 & He1).
    destruct (IH l1 (log_more e1 s) Hl1) as (l2 & e2 & E2 & Hl2 & He2).
    exists l2, (e1 ++ e2); unfold bind; rewrite E1, E2, log_more_more.
    split; [reflexivity|]; split; [assumption|].
    now rewrite filter_app, He1, He2.
Qed.

(** Whatever the loop returns normally keeps one of the two shapes, and has
    only added messages to the log. *)
Lemma step_shape (m : Mi) (l l' : locals) (s s' : St) :
  no_group l \/ group_open l ->
  modify_step m l s = Ret l' s' ->
  (no_group l' \/ group_open l') /\
  exists evs, s' = log_more evs s /\ filter is_call evs = [].
Proof.
  intros [Hl|Hl] E.
  - destruct (classify m) as [|t op|] eqn:Hc.
    + rewrite (step_separator _ _ _ Hc) in E; injection E as <- <-.
      split; [left; exact Hl | exists []; now rewrite log_more_nil].
    + rewrite (step_operator _ _ _ _ _ Hc) in E.
      destruct (open_gives_group t op (mi_val m) l s (or_introl Hl))
        as (l1 & E1 & Hl1 & _).
      rewrite E1 in E; injection E as <- <-.
      split; [now right | exists []; now rewrite log_more_nil].
    + rewrite (step_plain _ _ _ Hc) in E; unfold modify_value in E.
      destruct Hl as (Ha & Hn & Hm).
      destruct (state l =? AWAITING_OP).
      * injection E as <- <-; split; [left; now repeat split|].
        eexists; split; reflexivity.
      * rewrite Hm in E; discriminate.
  - destruct (step_in_group m l s Hl) as (l1 & evs & E1 & Hl1 & He).
    rewrite E1 in E; injection E as <- <-.
    split; [now right | now exists evs].
Qed.

Lemma loop_shape (mi : list Mi) (l l' : locals) (s s' : St) :
  no_group l \/ group_open l ->
  modify_loop mi l s = Ret l' s' ->
  (no_group l' \/ group_open l') /\
  exists evs, s' = log_more evs s /\ filter is_call evs = [].
Proof.
  revert l s; induction mi as [|m mi IH]; intros l s Hl E; simpl in E.
  - injection E as <- <-; split; [assumption|].
    exists []; now rewrite log_more_nil.
  - unfold bind in E; destruct (modify_step m l s) as [l1 s1|] eqn:E1;
      [|discriminate].
    destruct (step_shape _ _ _ _ _ Hl E1) as (Hl1 & e1 & -> & He1).
    destruct (IH _ _ Hl1 E) as (Hl' & e2 & -> & He2).
    split; [assumption|]; exists (e1 ++ e2); rewrite log_more_more.
    split; [reflexivity | now rewrite filter_app, He1, He2].
Qed.

Lemma init_no_group : no_group modify_init.
Proof. now repeat split. Qed.

Lemma free_each_returns (arr : list LDAPMod) (s : St) :
  free_each arr s = Ret tt s.
Proof.
  induction arr as [|g arr IH]; simpl; [reflexivity|].
  unfold bind, free_ldapmod, ret; exact IH.
Qed.

(** When the loop ends with a group open, [ldap_modify_s] is called with the
    groups and its result is returned. *)
Lemma modify_with_group (re : Re) (mi : list Mi) (l : locals)
    (evs : list event) (s : St) (r : Ri) :
  re_mods re = Some mi ->
  modify_loop mi modify_init s = Ret l (log_more evs s) ->
  group_open l -> ri s = Some r ->
  exists arr,
    arr <> [] /\ ldmarr l = Some arr /\
    let c := ldap_modify_s (ri_ldp r) (re_dn re) arr in
    let s1 := log_more
                (evs ++
                 [Debug LDAP_DEBUG_ARGS
                    ("replica %s:%d - modify dn " +++ quoted "%s" +++ nl)
                    (Str (ri_hostname r)) (Int (ri_port r))
                    (Str (re_dn re))]) s in
    op_ldap_modify re s = Ret (answer c s1) (after_call c s1).
Proof.
  intros Hm Hloop (arr & g & t & Ha & Hn & Hl & Hg & Ht & Hv) Hr.
  assert (Hlen : (0 < List.length arr)%nat).
  { destruct arr; [discriminate | simpl; lia]. }
  exists arr; split; [now destruct arr|]; split; [exact Ha|]; cbv zeta.
  unfold op_ldap_modify; rewrite Hm.
  rewrite (bind_Ret _ _ _ _ _ Hloop), Ha.
  rewrite (bind_Ret _ _ _ _ _ (terminate_full _ _ _ Hn)).
  replace (0 <? nops l) with true by (symmetry; apply Z.ltb_lt; lia).
  run r Hr; rewrite log_more_more; unfold free_ldmarr.
  now rewrite (bind_Ret _ _ _ _ _ (free_each_returns _ _)).
Qed.

(** ** Entries without an operator line *)

Lemma step_separator_state (m : Mi) (l : locals) (s : St) :
  is_separator m = true ->
  exists l', modify_step m l s = Ret l' s /\ state l' = T_MODSEP /\
             ldm l' = ldm l /\ ldmarr l' = ldmarr l /\ nops l' = nops l.
Proof.
  intros Hm; rewrite (step_separator _ _ _ (is_separator_classify _ Hm)).
  eexists; repeat split.
Qed.

Lemma step_plain_unassigned (m : Mi) (l : locals) (s : St) :
  is_plain m = true -> state l <> AWAITING_OP -> ldm l = None ->
  modify_step m l s = Fault UNINIT_ldm s.
Proof.
  intros Hm Hs Hl; rewrite (step_plain _ _ _ (is_plain_classify _ Hm)).
  unfold modify_value.
  destruct (Z.eqb_spec (state l) AWAITING_OP); [contradiction|].
  now rewrite Hl.
Qed.

Lemma not_operator_cases (m : Mi) :
  is_operator m = false -> is_separator m = true \/ is_plain m = true.
Proof.
  unfold is_operator, is_separator, is_plain; destruct (classify m); auto;
    discriminate.
Qed.

Lemma separator_not_plain (m : Mi) :
  is_separator m = true -> is_plain m = false.
Proof. unfold is_separator, is_plain; now destruct (classify m). Qed.

Lemma plain_not_separator (m : Mi) :
  is_plain m = true -> is_separator m = false.
Proof. unfold is_separator, is_plain; now destruct (classify m). Qed.

(** After a separator and before any operator: the first plain line, if there
    is one, reads the unassigned [ldm]. *)
Lemma loop_after_separator (mi : list Mi) (l : locals) (s : St) :
  forallb (fun m => negb (is_operator m)) mi = true ->
  no_group l -> state l = T_MODSEP -> T_MODSEP <> AWAITING_OP ->
  if existsb is_plain mi
  then modify_loop mi l s = Fault UNINIT_ldm s
  else modify_loop mi l s = Ret l s.
Proof.
  intros Hmi Hl Hs Hsep; induction mi as [|m mi IH]; simpl; [reflexivity|].
  simpl in Hmi; apply andb_true_iff in Hmi as [Hm Hmi].
  apply negb_true_iff, not_operator_cases in Hm as [Hm|Hm].
  - rewrite (separator_not_plain _ Hm); simpl; unfold bind.
    rewrite (step_separator _ _ _ (is_separator_classify _ Hm)).
    replace {| state := T_MODSEP; nvals := nvals l; nops := nops l;
               ldm := ldm l; ldmarr := ldmarr l |} with l
      by (destruct l; simpl in *; now subst).
    exact (IH Hmi).
  - rewrite Hm; simpl; unfold bind.
    destruct Hl as (_ & _ & Hl).
    rewrite step_plain_unassigned; [reflexivity | exact Hm | congruence
                                   | exact Hl].
Qed.

Lemma loop_without_operator (mi : list Mi) (l : locals) (s : St) :
  forallb (fun m => negb (is_operator m)) mi = true ->
  no_group l -> state l = AWAITING_OP -> T_MODSEP <> AWAITING_OP ->
  exists evs, filter is_call evs = [] /\
    if plain_after_separator mi
    then modify_loop mi l s = Fault UNINIT_ldm (log_more evs s)
    else exists l', modify_loop mi l s = Ret l' (log_more evs s) /\
                    no_group l'.
Proof.
  intros Hmi Hl Hs Hsep; revert s; induction mi as [|m mi IH]; intros s; simpl.
  { exists []; split; [reflexivity|]; exists l; now rewrite log_more_nil. }
  simpl in Hmi; apply andb_true_iff in Hmi as [Hm Hmi].
  apply negb_true_iff, not_operator_cases in Hm as [Hm|Hm].
  - rewrite Hm; unfold bind.
    rewrite (step_separator _ _ _ (is_separator_classify _ Hm)).
    set (l1 := {| state := T_MODSEP; nvals := nvals l; nops := nops l;
                  ldm := ldm l; ldmarr := ldmarr l |}).
    assert (Hl1 : no_group l1) by exact Hl.
    pose proof (loop_after_separator mi l1 s Hmi Hl1 eq_refl Hsep) as H.
    exists []; split; [reflexivity|]; rewrite log_more_nil.
    destruct (existsb is_plain mi); [exact H | now exists l1].
  - rewrite (plain_not_separator _ Hm); unfold bind.
    rewrite (step_plain_awaiting _ _ _ (is_plain_classify _ Hm) Hs).
    destruct (IH Hmi (log_more [unknown_mod_type m] s)) as (evs & He & H).
    exists (unknown_mod_type m :: evs); split; [exact He|].
    rewrite log_more_more in H; exact H.
Qed.

Lemma loop_separators (seps : list Mi) (l : locals) (s : St) :
  forallb is_separator seps = true -> state l = T_MODSEP ->
  modify_loop seps l s = Ret l s.
Proof.
  intros Hseps Hs; induction seps as [|m seps IH]; simpl; [reflexivity|].
  simpl in Hseps; apply andb_true_iff in Hseps as [Hm Hseps].
  rewrite (bind_Ret _ _ _ _ _
             (step_separator _ _ _ (is_separator_classify _ Hm))).
  replace {| state := T_MODSEP; nvals := nvals l; nops := nops l;
             ldm := ldm l; ldmarr := ldmarr l |} with l
    by (destruct l; simpl in *; now subst).
  exact (IH Hseps).
Qed.

(** ** [do_ldap] on a replica whose session is open *)

Lemma loop_with_session (retry : nat) (re : Re) (s : St) (r : Ri) (ld : LDAP) :
  ri s = Some r -> ri_ldp r = Some ld ->
  do_ldap_loop (S retry) re s
  = bind (dispatch re) (after_dispatch retry re) s.
Proof.
  intros Hr Hld; simpl.
  rewrite (bind_ri_get _ _ _ r Hr), Hld, bind_ret; reflexivity.
Qed.

Lemma dispatch_add (re : Re) :
  re_changetype re = T_ADDCT ->
  dispatch re
  = (lderr <- op_ldap_add re ;;
     report lderr
       ("Error: ldap_add_s failed adding " +++ quoted "%s" +++ ": %s" +++ nl)
       re ;;
     ret (inl lderr)).
Proof. intros E; unfold dispatch; now rewrite E, Z.eqb_refl. Qed.

Lemma dispatch_modify (re : Re) :
  re_changetype re = T_MODIFYCT -> T_MODIFYCT <> T_ADDCT ->
  dispatch re
  = (lderr <- op_ldap_modify re ;;
     report lderr
       ("Error: ldap_modify_s failed modifying " +++ quoted "%s" +++ ": %s"
          +++ nl) re ;;
     ret (inl lderr)).
Proof.
  intros E N; unfold dispatch; rewrite E, Z.eqb_refl.
  now destruct (Z.eqb_spec T_MODIFYCT T_ADDCT).
Qed.

Lemma dispatch_delete (re : Re) :
  re_changetype re = T_DELETECT ->
  T_DELETECT <> T_ADDCT -> T_DELETECT <> T_MODIFYCT ->
  dispatch re
  = (lderr <- op_ldap_delete re ;;
     report lderr
       ("Error: ldap_delete_s failed deleting " +++ quoted "%s" +++ ": %s"
          +++ nl) re ;;
     ret (inl lderr)).
Proof.
  intros E N1 N2; unfold dispatch; rewrite E, Z.eqb_refl.
  destruct (Z.eqb_spec T_DELETECT T_ADDCT); [contradiction|].
  now destruct (Z.eqb_spec T_DELETECT T_MODIFYCT).
Qed.

Lemma dispatch_modrdn (re : Re) :
  re_changetype re = T_MODRDNCT ->
  T_MODRDNCT <> T_ADDCT -> T_MODRDNCT <> T_MODIFYCT ->
  T_MODRDNCT <> T_DELETECT ->
  dispatch re
  = (lderr <- op_ldap_modrdn re ;;
     report lderr ("Error: ldap_modrdn_s failed modifying %s: %s" +++ nl) re ;;
     ret (inl lderr)).
Proof.
  intros E N1 N2 N3; unfold dispatch; rewrite E, Z.eqb_refl.
  destruct (Z.eqb_spec T_MODRDNCT T_ADDCT); [contradiction|].
  destruct (Z.eqb_spec T_MODRDNCT T_MODIFYCT); [contradiction|].
  now destruct (Z.eqb_spec T_MODRDNCT T_DELETECT).
Qed.

(** ** Modify entries *)

(** [op_ldap_modify] reads the items through the loop only. *)
Lemma modify_same_loop (re re' : Re) (mi mi' : list Mi) (s s' : St) :
  re_mods re = Some mi -> re_mods re' = Some mi' -> re_dn re = re_dn re' ->
  modify_loop mi modify_init s = modify_loop mi' modify_init s' ->
  op_ldap_modify re s = op_ldap_modify re' s'.
Proof.
  intros E E' Ed El; unfold op_ldap_modify; rewrite E, E', Ed.
  unfold bind at 1 3; now rewrite El.
Qed.

(** C2, as amended.  A modify entry that starts with plain attribute lines
    followed by an operator line is not rejected: each of these lines is
    reported by the "unknown mod type" message and skipped, the entry is
    processed as the entry without them is, and [ldap_modify_s] is called
    with the groups of the entry; what it answers is returned. *)
Theorem leading_plain_lines_are_skipped
    (ct : Z) (dn : string) (plains : list Mi) (o : Mi) (more : list Mi)
    (s : St) (r : Ri) :
  forallb is_plain plains = true -> is_operator o = true -> ri s = Some r ->
  let re := {| re_changetype := ct; re_dn := dn;
               re_mods := Some (plains ++ o :: more) |} in
  let re' := {| re_changetype := ct; re_dn := dn;
                re_mods := Some (o :: more) |} in
  op_ldap_modify re s
  = op_ldap_modify re' (log_more (map unknown_mod_type plains) s) /\
  exists arr evs,
    arr <> [] /\ filter is_call evs = [] /\
    (forall m, In m plains -> In (unknown_mod_type m) evs) /\
    let c := ldap_modify_s (ri_ldp r) dn arr in
    op_ldap_modify re s
    = Ret (answer c (log_more evs s)) (after_call c (log_more evs s)).
Proof.
  intros Hp Ho Hr re re'.
  assert (E : op_ldap_modify re s
              = op_ldap_modify re'
                  (log_more (map unknown_mod_type plains) s)).
  { apply (modify_same_loop re re' _ _ s _ eq_refl eq_refl eq_refl).
    rewrite loop_app.
    now rewrite (loop_plain_awaiting plains modify_init s Hp eq_refl). }
  split; [exact E|]; rewrite E.
  set (s0 := log_more (map unknown_mod_type plains) s).
  destruct (is_operator_classify _ Ho) as (t & op & Hc).
  destruct (open_gives_group t op (mi_val o) modify_init s0
              (or_introl init_no_group)) as (l1 & E1 & Hl1 & _).
  destruct (loop_in_group more l1 s0 Hl1) as (l2 & e2 & E2 & Hl2 & He2).
  assert (Hloop : modify_loop (o :: more) modify_init s0
                  = Ret l2 (log_more e2 s0)).
  { simpl; rewrite (bind_Ret _ _ _ _ _
                      (eq_trans (step_operator _ _ _ _ _ Hc) E1)).
    exact E2. }
  destruct (modify_with_group re' (o :: more) l2 e2 s0 r eq_refl Hloop Hl2 Hr)
    as (arr & Harr & _ & Hrun).
  cbv zeta in Hrun; unfold s0 in Hrun; rewrite log_more_more in Hrun.
  exists arr; eexists; split; [exact Harr|]; split; [|split; [|exact Hrun]].
  - rewrite !filter_app, He2; simpl; rewrite app_nil_r.
    clear; induction plains; simpl; auto.
  - intros m Hm; apply in_or_app; left; now apply in_map.
Qed.

(** C3, as amended.  When a group is open for the type [expected] and a plain
    attribute line comes whose tag differs from it (whatever the case of the
    letters), the line is reported by a message that names the tag, the value
    and the expected type, and skipped: the locals of the loop are unchanged.
    The entry is not rejected: [ldap_modify_s] is called with the groups of
    the entry and what it answers is returned. *)
Theorem mismatched_line_is_skipped
    (ct : Z) (dn : string) (pre : list Mi) (m : Mi) (rest : list Mi)
    (s s1 : St) (l : locals) (g : LDAPMod) (expected : string) (r : Ri) :
  modify_loop pre modify_init s = Ret l s1 ->
  current_group l = Some g -> mod_type g = Some expected ->
  state l <> AWAITING_OP ->
  is_plain m = true -> strcasecmp (mi_type m) expected <> 0 ->
  ri s = Some r ->
  let re := {| re_changetype := ct; re_dn := dn;
               re_mods := Some (pre ++ m :: rest) |} in
  modify_step m l s1 = Ret l (log_more [malformed_modify_op m expected] s1) /\
  exists arr evs,
    arr <> [] /\ filter is_call evs = [] /\
    In (malformed_modify_op m expected) evs /\
    let c := ldap_modify_s (ri_ldp r) dn arr in
    op_ldap_modify re s
    = Ret (answer c (log_more evs s)) (after_call c (log_more evs s)).
Proof.
  intros Hpre Hg Ht Hs Hm Hne Hr re.
  destruct (loop_shape _ _ _ _ _ (or_introl init_no_group) Hpre)
    as (Hl & e1 & -> & He1).
  assert (Hopen : group_open l).
  { destruct Hl as [(_ & _ & Hn)|Hl]; [|exact Hl].
    unfold current_group in Hg; rewrite Hn in Hg; discriminate. }
  assert (Hstep : forall s2, modify_step m l s2
                  = Ret l (log_more [malformed_modify_op m expected] s2)).
  { intros s2; rewrite (step_plain _ _ _ (is_plain_classify _ Hm)).
    unfold modify_value.
    destruct (Z.eqb_spec (state l) AWAITING_OP); [contradiction|].
    unfold current_group in Hg; destruct (ldm l); [|discriminate].
    rewrite Hg, Ht.
    destruct (Z.eqb_spec (strcasecmp (mi_type m) expected) 0);
      [contradiction|reflexivity]. }
  split; [apply Hstep|].
  set (s2 := log_more [malformed_modify_op m expected] (log_more e1 s)).
  destruct (loop_in_group rest l s2 Hopen) as (l3 & e3 & E3 & Hl3 & He3).
  assert (Hloop : modify_loop (pre ++ m :: rest) modify_init s
                  = Ret l3 (log_more
                              (e1 ++ malformed_modify_op m expected :: e3)
                              s)).
  { rewrite loop_app, Hpre; simpl; unfold s2 in E3.
    rewrite (bind_Ret _ _ _ _ _ (Hstep _)), E3.
    rewrite !log_more_more; reflexivity. }
  destruct (modify_with_group re _ l3 _ s r eq_refl Hloop Hl3 Hr)
    as (arr & Harr & _ & Hrun).
  exists arr; eexists; split; [exact Harr|]; split; [|split; [|exact Hrun]].
  - rewrite !filter_app, He1; simpl; now rewrite He3.
  - apply in_or_app; left; apply in_or_app; right; now left.
Qed.

(** C8, as amended.  A modify entry without an operator line never makes
    [op_ldap_modify] return: when no plain attribute line comes after a
    separator line, the run reaches the store of the terminator,
    [ldmarr[ nops ] = NULL], with [ldmarr] still NULL; when one does, the run
    has left defined behaviour before, at the read of the unassigned [ldm],
    and does not reach the store.  No call is made on the way. *)
Theorem entry_without_operator_faults (re : Re) (mi : list Mi) (s : St) :
  re_mods re = Some mi ->
  forallb (fun m => negb (is_operator m)) mi = true ->
  T_MODSEP <> AWAITING_OP ->
  exists evs,
    filter is_call evs = [] /\
    op_ldap_modify re s
    = Fault (if plain_after_separator mi then UNINIT_ldm
             else NULL_ldmarr_store)
        (log_more evs s).
Proof.
  intros Hm Hmi Hsep.
  destruct (loop_without_operator mi modify_init s Hmi init_no_group eq_refl
              Hsep) as (evs & He & H).
  exists evs; split; [exact He|]; unfold op_ldap_modify; rewrite Hm.
  destruct (plain_after_separator mi).
  - now apply bind_Fault.
  - destruct H as (l' & E & Ha & _); rewrite (bind_Ret _ _ _ _ _ E).
    now rewrite Ha.
Qed.

(** C9.  A separator line sets the state to [T_MODSEP], which is not
    [AWAITING_OP], whether a group has been opened or not, and leaves [ldm] as
    it was.  So in an entry where separators come before the first operator
    line, the plain attribute line that follows them does not take the
    [state == AWAITING_OP] branch (no "unknown mod type" message for it): it
    is compared with [ldm->mod_type] while [ldm] has never been assigned. *)
Theorem plain_after_separator_reads_unassigned_ldm
    (ct : Z) (dn : string) (plains : list Mi) (sep : Mi) (seps : list Mi)
    (m : Mi) (rest : list Mi) (s : St) :
  forallb is_plain plains = true -> is_separator sep = true ->
  forallb is_separator seps = true -> is_plain m = true ->
  T_MODSEP <> AWAITING_OP ->
  let before := plains ++ sep :: seps in
  let re := {| re_changetype := ct; re_dn := dn;
               re_mods := Some (before ++ m :: rest) |} in
  let s1 := log_more (map unknown_mod_type plains) s in
  (forall l s',
     exists l', modify_step sep l s' = Ret l' s' /\
                state l' <> AWAITING_OP /\ ldm l' = ldm l) /\
  (exists l, modify_loop before modify_init s = Ret l s1 /\
             state l <> AWAITING_OP /\ ldm l = None /\
             modify_step m l s1 = Fault UNINIT_ldm s1) /\
  op_ldap_modify re s = Fault UNINIT_ldm s1.
Proof.
  intros Hp Hsep Hseps Hm Hne before re s1.
  assert (Hfirst : forall l s',
            exists l', modify_step sep l s' = Ret l' s' /\
                       state l' <> AWAITING_OP /\ ldm l' = ldm l).
  { intros l s'.
    destruct (step_separator_state sep l s' Hsep) as (l' & E & Hst & Hl & _).
    exists l'; repeat split; [exact E | congruence | exact Hl]. }
  set (l1 := {| state := T_MODSEP; nvals := 0; nops := 0; ldm := None;
                ldmarr := None |}).
  assert (Hloop : modify_loop before modify_init s = Ret l1 s1).
  { unfold before; rewrite loop_app.
    rewrite (loop_plain_awaiting plains modify_init s Hp eq_refl); simpl.
    rewrite (bind_Ret _ _ _ _ _
               (step_separator _ _ _ (is_separator_classify _ Hsep))).
    exact (loop_separators seps l1 s1 Hseps eq_refl). }
  assert (Hstep : modify_step m l1 s1 = Fault UNINIT_ldm s1).
  { apply step_plain_unassigned; [exact Hm | exact Hne | reflexivity]. }
  split; [exact Hfirst|]; split.
  - exists l1; repeat split; [exact Hloop | exact Hne | exact Hstep].
  - unfold op_ldap_modify, re; cbn [re_mods].
    apply bind_Fault; rewrite loop_app, Hloop; simpl.
    now apply bind_Fault.
Qed.

(** C4.  On a modify entry without any item the loop opens no group and
    [op_ldap_modify] stores the terminator through [ldmarr], still NULL: the
    run leaves defined behaviour there, before the test [nops > 0], with no
    message behind [errmsg]; so does [do_ldap]. *)
Theorem modify_without_items_faults (re : Re) (s : St) (r : Ri) (ld : LDAP) :
  re_changetype re = T_MODIFYCT -> T_MODIFYCT <> T_ADDCT ->
  re_mods re = Some [] -> ri s = Some r -> ri_ldp r = Some ld ->
  op_ldap_modify re s = Fault NULL_ldmarr_store s /\
  do_ldap re s = Fault NULL_ldmarr_store (with_errmsg None s).
Proof.
  intros Hct Hne Hm Hr Hld.
  assert (E : forall s0, op_ldap_modify re s0 = Fault NULL_ldmarr_store s0).
  { intros s0; unfold op_ldap_modify; now rewrite Hm. }
  split; [apply E|].
  unfold do_ldap; rewrite bind_set_errmsg.
  rewrite (loop_with_session 1 re (with_errmsg None s) r ld Hr Hld).
  apply bind_Fault; rewrite (dispatch_modify re Hct Hne).
  apply bind_Fault, E.
Qed.

(** ** Add entries *)

(** C1.  On an add entry without any item [op_ldap_add] puts
    "No modifications to do" behind [errmsg] and calls nothing, but then hands
    the NULL [ldmarr] to [free_ldmarr], which reads [ldmarr[ 0 ]]: the run
    leaves defined behaviour there, and so does [do_ldap], which returns no
    result. *)
Theorem add_without_items_faults (re : Re) (s : St) (r : Ri) (ld : LDAP) :
  re_changetype re = T_ADDCT -> re_mods re = Some [] ->
  ri s = Some r -> ri_ldp r = Some ld ->
  let s' := log_more
              [Debug LDAP_DEBUG_ANY "Error: op_ldap_add: no mods to do (%s)!"
                 (Str (re_dn re)) (Int 0) (Int 0)]
              (with_errmsg (Some "No modifications to do") s) in
  op_ldap_add re s = Fault NULL_ldmarr_free s' /\
  do_ldap re s = Fault NULL_ldmarr_free s'.
Proof.
  intros Hct Hm Hr Hld s'.
  assert (E : forall s0, op_ldap_add re s0
              = Fault NULL_ldmarr_free
                  (log_more
                     [Debug LDAP_DEBUG_ANY
                        "Error: op_ldap_add: no mods to do (%s)!"
                        (Str (re_dn re)) (Int 0) (Int 0)]
                     (with_errmsg (Some "No modifications to do") s0))).
  { intros s0; unfold op_ldap_add; rewrite Hm; simpl add_loop.
    rewrite bind_ret, bind_set_errmsg, bind_debug; reflexivity. }
  split; [apply E|].
  unfold do_ldap; rewrite bind_set_errmsg.
  rewrite (loop_with_session 1 re (with_errmsg None s) r ld Hr Hld).
  apply bind_Fault; rewrite (dispatch_add re Hct).
  apply bind_Fault; rewrite E; reflexivity.
Qed.

(** ** What [do_ldap] makes of the result of an operation *)

Lemma report_failure (lderr : Z) (fmt : string) (re : Re) (s : St) :
  lderr <> LDAP_SUCCESS ->
  report lderr fmt re s
  = Ret tt
      (log_more
         [Debug LDAP_DEBUG_ANY fmt
            (Str match errmsg s with
                 | Some m => m
                 | None => ldap_err2string lderr
                 end)
            (Str (re_dn re)) (Int 0)] s).
Proof.
  intros Hne; unfold report.
  destruct (Z.eqb_spec lderr LDAP_SUCCESS); [contradiction|]; cbn [negb].
  unfold failure_text, bind, get_errmsg; now destruct (errmsg s).
Qed.

Lemma report_success (fmt : string) (re : Re) (s : St) :
  report LDAP_SUCCESS fmt re s = Ret tt s.
Proof. unfold report; now rewrite Z.eqb_refl. Qed.

Lemma after_dispatch_fatal (retry : nat) (re : Re) (lderr : Z) (s : St) :
  lderr <> LDAP_SUCCESS -> lderr <> LDAP_SERVER_DOWN ->
  after_dispatch retry re (inl lderr) s = Ret DO_LDAP_ERR_FATAL s.
Proof.
  intros H1 H2; unfold after_dispatch.
  destruct (Z.eqb_spec lderr LDAP_SUCCESS); [contradiction|].
  now destruct (Z.eqb_spec lderr LDAP_SERVER_DOWN).
Qed.

Lemma after_dispatch_ok (retry : nat) (re : Re) (s : St) :
  after_dispatch retry re (inl LDAP_SUCCESS) s = Ret DO_LDAP_OK s.
Proof. unfold after_dispatch; now rewrite Z.eqb_refl. Qed.

Lemma after_dispatch_down (retry : nat) (re : Re) (s : St) :
  LDAP_SERVER_DOWN <> LDAP_SUCCESS ->
  after_dispatch retry re (inl LDAP_SERVER_DOWN) s
  = (do_unbind ;; do_ldap_loop retry re) s.
Proof.
  intros H; unfold after_dispatch.
  destruct (Z.eqb_spec LDAP_SERVER_DOWN LDAP_SUCCESS); [contradiction|].
  now rewrite Z.eqb_refl.
Qed.

(** An operation that returns an error other than "server down" makes
    [do_ldap] return [DO_LDAP_ERR_FATAL], after a message and nothing else. *)
Lemma do_ldap_fatal (re : Re) (op : M Z) (fmt : string) (s s1 : St)
    (r : Ri) (ld : LDAP) (rc : Z) :
  ri s = Some r -> ri_ldp r = Some ld ->
  dispatch re = (lderr <- op ;; report lderr fmt re ;; ret (inl lderr)) ->
  op (with_errmsg None s) = Ret rc s1 ->
  rc <> LDAP_SUCCESS -> rc <> LDAP_SERVER_DOWN ->
  exists ev, is_call ev = false /\
             do_ldap re s = Ret DO_LDAP_ERR_FATAL (log_more [ev] s1).
Proof.
  intros Hr Hld Hd Hop H1 H2; eexists; split; cycle 1.
  - unfold do_ldap; rewrite bind_set_errmsg.
    rewrite (loop_with_session 1 re (with_errmsg None s) r ld Hr Hld), Hd.
    rewrite bind_bind, (bind_Ret _ _ _ _ _ Hop), bind_bind.
    rewrite (bind_Ret _ _ _ _ _ (report_failure _ _ _ _ H1)), bind_ret.
    apply after_dispatch_fatal; assumption.
  - reflexivity.
Qed.

(** C10.  When the array of items of the entry is absent ([re_mods] is
    NULL), [op_ldap_modify] and [op_ldap_modrdn] return [-1] with
    "No arguments given" behind [errmsg], having called nothing, and
    [do_ldap] returns [DO_LDAP_ERR_FATAL]; [op_ldap_add] has no such test and
    reads [mi[ 0 ].mi_type] through the NULL pointer: the run leaves defined
    behaviour there, with no result and no message. *)
Theorem absent_items_checked_except_by_add
    (dn : string) (s : St) (r : Ri) (ld : LDAP) :
  ri s = Some r -> ri_ldp r = Some ld ->
  LDAP_SUCCESS <> -1 -> LDAP_SERVER_DOWN <> -1 ->
  T_MODIFYCT <> T_ADDCT -> T_MODRDNCT <> T_ADDCT ->
  T_MODRDNCT <> T_MODIFYCT -> T_MODRDNCT <> T_DELETECT ->
  let re ct := {| re_changetype := ct; re_dn := dn; re_mods := None |} in
  let rejected (op : M Z) (v : Z) :=
    exists s', op s = Ret v s' /\ errmsg s' = Some "No arguments given" /\
               filter is_call (log s') = filter is_call (log s) in
  rejected (op_ldap_modify (re T_MODIFYCT)) (-1) /\
  rejected (do_ldap (re T_MODIFYCT)) DO_LDAP_ERR_FATAL /\
  rejected (op_ldap_modrdn (re T_MODRDNCT)) (-1) /\
  rejected (do_ldap (re T_MODRDNCT)) DO_LDAP_ERR_FATAL /\
  op_ldap_add (re T_ADDCT) s = Fault NULL_mi s /\
  do_ldap (re T_ADDCT) s = Fault NULL_mi (with_errmsg None s).
Proof.
  intros Hr Hld Hs Hd N1 N2 N3 N4 re rejected.
  repeat split.
  - eexists; split; [reflexivity|]; split; [reflexivity|]; same_calls.
  - destruct (do_ldap_fatal (re T_MODIFYCT) _ _ s _ r ld (-1) Hr Hld
                (dispatch_modify (re T_MODIFYCT) eq_refl N1) eq_refl)
      as (ev & Hev & E); [congruence | congruence |].
    eexists; split; [exact E|]; split; [reflexivity|].
    unfold log_more at 1; cbn [log]; rewrite filter_app; cbn [filter].
    rewrite Hev; same_calls.
  - eexists; split; [reflexivity|]; split; [reflexivity|]; same_calls.
  - destruct (do_ldap_fatal (re T_MODRDNCT) _ _ s _ r ld (-1) Hr Hld
                (dispatch_modrdn (re T_MODRDNCT) eq_refl N2 N3 N4) eq_refl)
      as (ev & Hev & E); [congruence | congruence |].
    eexists; split; [exact E|]; split; [reflexivity|].
    unfold log_more at 1; cbn [log]; rewrite filter_app; cbn [filter].
    rewrite Hev; same_calls.
  - unfold do_ldap; rewrite bind_set_errmsg.
    rewrite (loop_with_session 1 _ (with_errmsg None s) r ld Hr Hld).
    apply bind_Fault; rewrite (dispatch_add (re T_ADDCT) eq_refl).
    now apply bind_Fault.
Qed.

(** ** The pointer [ri] stays valid *)

Lemma keeps_ret {A} (a : A) : keeps_ri (ret a).
Proof. intros s a' s' H E; inversion E; subst; exact H. Qed.

Lemma keeps_raise {A} (f : fault) : keeps_ri (@raise lib A f).
Proof. intros s a s' _ E; discriminate. Qed.

Lemma keeps_bind {A B} (m : M A) (k : A -> M B) :
  keeps_ri m -> (forall a, keeps_ri (k a)) -> keeps_ri (bind m k).
Proof.
  intros Hm Hk s b s' H E; unfold bind in E.
  destruct (m s) as [a s1|] eqn:E1; [|discriminate].
  exact (Hk a s1 b s' (Hm s a s1 H E1) E).
Qed.

Lemma keeps_emit (e : event) : keeps_ri (emit e).
Proof. intros s a s' H E; inversion E; subst; exact H. Qed.

Lemma keeps_debug lv fmt a1 a2 a3 : keeps_ri (debug lv fmt a1 a2 a3).
Proof. apply keeps_emit. Qed.

Lemma keeps_do_call {T} (c : call T) : keeps_ri (do_call c).
Proof.
  intros s a s' H; unfold do_call.
  destruct (perform T c (world s)); intros E; inversion E; subst; exact H.
Qed.

Lemma keeps_set_errmsg (m : option string) : keeps_ri (set_errmsg m).
Proof. intros s a s' H E; inversion E; subst; exact H. Qed.

Lemma keeps_get_errmsg : keeps_ri get_errmsg.
Proof. intros s a s' H E; inversion E; subst; exact H. Qed.

Lemma keeps_ri_ptr : keeps_ri ri_ptr.
Proof. intros s a s' H E; inversion E; subst; exact H. Qed.

Lemma keeps_ri_get {A} (field : Ri -> A) : keeps_ri (ri_get field).
Proof.
  intros s a s' H; unfold ri_get; destruct (ri s) eqn:Er; [|discriminate].
  intros E; inversion E; subst; congruence.
Qed.

Lemma keeps_ri_set (upd : Ri -> Ri) : keeps_ri (ri_set upd).
Proof.
  intros s a s' H; unfold ri_set; destruct (ri s) eqn:Er; [|discriminate].
  intros E; inversion E; subst; discriminate.
Qed.

Lemma keeps_ldp_get {A} (field : LDAP -> World -> A) :
  keeps_ri (ldp_get field).
Proof.
  intros s a s' H; unfold ldp_get.
  destruct (ri s) as [r|] eqn:Er; [|discriminate].
  destruct (ri_ldp r); [|discriminate]; intros E; inversion E; subst.
  congruence.
Qed.

Lemma keeps_ldp_update_options (f : Z -> Z) :
  keeps_ri (ldp_update_options f).
Proof.
  intros s a s' H; unfold ldp_update_options.
  destruct (ri s) as [r|] eqn:Er; [|discriminate].
  destruct (ri_ldp r); [|discriminate]; intros E; inversion E; subst.
  exact H.
Qed.

Lemma keeps_world {A} (f : St -> A) : keeps_ri (fun s => Ret (f s) s).
Proof. intros s a s' H E; inversion E; subst; exact H. Qed.

Lemma keeps_store {A} (arr : list A) (n : Z) (x : A) :
  keeps_ri (store arr n x).
Proof.
  unfold store; destruct (n =? _); [apply keeps_ret|].
  destruct (_ && _); [apply keeps_ret | apply keeps_raise].
Qed.

Lemma keeps_terminate {A} (arr : list A) (n : Z) :
  keeps_ri (terminate arr n).
Proof.
  unfold terminate; destruct (_ && _); [apply keeps_ret | apply keeps_raise].
Qed.

Ltac keeps :=
  repeat first
    [ solve [auto]
    | apply keeps_ret | apply keeps_raise | apply keeps_debug
    | apply keeps_do_call | apply keeps_set_errmsg | apply keeps_get_errmsg
    | apply keeps_ri_ptr | apply keeps_ri_get | apply keeps_ri_set
    | apply keeps_ldp_get | apply keeps_ldp_update_options
    | apply keeps_store | apply keeps_terminate
    | apply keeps_bind; [|intros ?]
    | match goal with
      | |- keeps_ri (match ?x with _ => _ end) => destruct x
      | |- keeps_ri (if ?b then _ else _) => destruct b
      end ].

Lemma keeps_free_ldmarr (ldmarr : option (list LDAPMod)) :
  keeps_ri (free_ldmarr ldmarr).
Proof.
  destruct ldmarr as [arr|]; simpl; [|apply keeps_raise].
  induction arr; simpl; unfold free_ldapmod; keeps.
Qed.

Lemma keeps_add_loop (mi : list Mi) ldmarr nattrs :
  keeps_ri (add_loop mi ldmarr nattrs).
Proof. revert ldmarr nattrs; induction mi; intros; simpl; keeps. Qed.

Lemma keeps_op_ldap_add (re : Re) : keeps_ri (op_ldap_add re).
Proof.
  pose proof keeps_add_loop; pose proof keeps_free_ldmarr.
  unfold op_ldap_add; keeps.
Qed.

Lemma keeps_modify_loop (mi : list Mi) (l : locals) :
  keeps_ri (modify_loop mi l).
Proof.
  revert l; induction mi; intros; simpl;
    unfold modify_step, modify_open, modify_value; keeps.
Qed.

Lemma keeps_op_ldap_modify (re : Re) : keeps_ri (op_ldap_modify re).
Proof.
  pose proof keeps_modify_loop; pose proof keeps_free_ldmarr.
  unfold op_ldap_modify; keeps.
Qed.

Lemma keeps_op_ldap_delete (re : Re) : keeps_ri (op_ldap_delete re).
Proof. unfold op_ldap_delete; keeps. Qed.

Lemma keeps_modrdn_loop (mi : list Mi) state drdnflag newrdn :
  keeps_ri (modrdn_loop mi state drdnflag newrdn).
Proof.
  revert state drdnflag newrdn; induction mi; intros; simpl; keeps.
Qed.

Lemma keeps_op_ldap_modrdn (re : Re) : keeps_ri (op_ldap_modrdn re).
Proof.
  pose proof keeps_modrdn_loop; unfold op_ldap_modrdn; keeps.
Qed.

Lemma keeps_dispatch (re : Re) : keeps_ri (dispatch re).
Proof.
  pose proof keeps_op_ldap_add; pose proof keeps_op_ldap_modify.
  pose proof keeps_op_ldap_delete; pose proof keeps_op_ldap_modrdn.
  unfold dispatch, report, failure_text; keeps.
Qed.

Lemma keeps_do_unbind : keeps_ri do_unbind.
Proof. unfold do_unbind; keeps. Qed.

Lemma keeps_tgt_loop (krbnames : list string) : keeps_ri (tgt_loop krbnames).
Proof. induction krbnames; simpl; keeps. Qed.

Lemma keeps_do_bind : keeps_ri do_bind.
Proof.
  pose proof keeps_tgt_loop.
  unfold do_bind, kerberos_bind, read_krbnames; keeps.
  apply keeps_world.
Qed.

(** ** The retry loop of [do_ldap] *)

Lemma do_unbind_closes (s : St) :
  ri s <> None ->
  exists v s' r', do_unbind s = Ret v s' /\ ri s' = Some r' /\
                  ri_ldp r' = None.
Proof.
  intros H; unfold do_unbind; rewrite bind_ri_ptr.
  destruct (ri s) as [r|] eqn:Hr; [|contradiction].
  destruct (ri_ldp r) as [ld|] eqn:Hld.
  - rewrite bind_do_call.
    set (c := ldap_unbind (Some ld)).
    assert (Hr' : ri (after_call c s) = Some r) by exact Hr.
    destruct (negb (answer c s =? LDAP_SUCCESS)).
    + rewrite bind_debug.
      rewrite (bind_ri_set _ _ _ r) by exact Hr'.
      eexists; eexists; eexists; split; [reflexivity|]; split; reflexivity.
    + rewrite bind_ret, (bind_ri_set _ _ _ r) by exact Hr'.
      eexists; eexists; eexists; split; [reflexivity|]; split; reflexivity.
  - exists LDAP_SUCCESS, s, r; repeat split; assumption.
Qed.

Lemma loop_head (retry : nat) (re : Re) (s s1 : St) :
  session_ready s s1 ->
  do_ldap_loop (S retry) re s
  = bind (dispatch re) (after_dispatch retry re) s1.
Proof.
  intros (r & Hr & H); destruct (ri_ldp r) as [ld|] eqn:Hld.
  - subst s1; exact (loop_with_session retry re s r ld Hr Hld).
  - destruct H as (e & Hb); simpl.
    rewrite (bind_ri_get _ _ _ r Hr), Hld, bind_bind.
    rewrite (bind_Ret _ _ _ _ _ Hb), bind_ret; cbn [fst].
    rewrite Z.eqb_refl; reflexivity.
Qed.

Lemma loop_bind_failure (retry : nat) (re : Re) (s s' : St) (r : Ri)
    (rc e : Z) :
  ri s = Some r -> ri_ldp r = None ->
  do_bind s = Ret (rc, e) s' -> rc <> BIND_OK ->
  do_ldap_loop (S retry) re s = Ret DO_LDAP_ERR_RETRYABLE s'.
Proof.
  intros Hr Hld Hb Hne; simpl.
  rewrite (bind_ri_get _ _ _ r Hr), Hld, bind_bind.
  rewrite (bind_Ret _ _ _ _ _ Hb), bind_ret; cbn [fst].
  now destruct (Z.eqb_spec rc BIND_OK).
Qed.

Lemma session_ready_keeps (s s1 : St) : session_ready s s1 -> ri s1 <> None.
Proof.
  intros (r & Hr & H); destruct (ri_ldp r).
  - subst s1; congruence.
  - destruct H as (e & Hb).
    apply (keeps_do_bind s (BIND_OK, e) s1); [congruence | exact Hb].
Qed.

(** C7.  When the operation of the first attempt ends with
    [LDAP_SERVER_DOWN], [do_ldap] unbinds, which leaves the replica without a
    session, and makes one more attempt, which starts with [do_bind]:
    - when this bind fails, the result is [DO_LDAP_ERR_RETRYABLE];
    - when it succeeds and the operation succeeds, the result is
      [DO_LDAP_OK];
    - when it succeeds and the operation ends with [LDAP_SERVER_DOWN] again,
      [do_ldap] unbinds and the result is [DO_LDAP_ERR_FATAL], with no third
      attempt;
    - when it succeeds and the operation ends with another error, the result
      is [DO_LDAP_ERR_FATAL].
    A bind that fails at the head of an attempt gives
    [DO_LDAP_ERR_RETRYABLE] whatever the number of attempts left, which it
    does not change. *)
Theorem one_rebind_and_reapply (re : Re) (s s1 s2 : St) :
  LDAP_SERVER_DOWN <> LDAP_SUCCESS ->
  session_ready (with_errmsg None s) s1 ->
  dispatch re s1 = Ret (inl LDAP_SERVER_DOWN) s2 ->
  exists v s3 r3,
    do_unbind s2 = Ret v s3 /\ ri s3 = Some r3 /\ ri_ldp r3 = None /\
    (forall rc e s4,
       do_bind s3 = Ret (rc, e) s4 -> rc <> BIND_OK ->
       do_ldap re s = Ret DO_LDAP_ERR_RETRYABLE s4) /\
    (forall e s4 s5,
       do_bind s3 = Ret (BIND_OK, e) s4 ->
       dispatch re s4 = Ret (inl LDAP_SUCCESS) s5 ->
       do_ldap re s = Ret DO_LDAP_OK s5) /\
    (forall e s4 s5,
       do_bind s3 = Ret (BIND_OK, e) s4 ->
       dispatch re s4 = Ret (inl LDAP_SERVER_DOWN) s5 ->
       exists v' s6, do_unbind s5 = Ret v' s6 /\
                     do_ldap re s = Ret DO_LDAP_ERR_FATAL s6) /\
    (forall e s4 s5 lderr,
       do_bind s3 = Ret (BIND_OK, e) s4 ->
       dispatch re s4 = Ret (inl lderr) s5 ->
       lderr <> LDAP_SUCCESS -> lderr <> LDAP_SERVER_DOWN ->
       do_ldap re s = Ret DO_LDAP_ERR_FATAL s5) /\
    (forall retry sx sx' rx rc e,
       ri sx = Some rx -> ri_ldp rx = None ->
       do_bind sx = Ret (rc, e) sx' -> rc <> BIND_OK ->
       do_ldap_loop (S retry) re sx = Ret DO_LDAP_ERR_RETRYABLE sx').
Proof.
  intros Hne Hready Hdown.
  assert (H2 : ri s2 <> None).
  { apply (keeps_dispatch re s1 (inl LDAP_SERVER_DOWN) s2); [|exact Hdown].
    exact (session_ready_keeps _ _ Hready). }
  destruct (do_unbind_closes s2 H2) as (v & s3 & r3 & Hu & Hr3 & Hld3).
  assert (E : do_ldap re s = do_ldap_loop 1 re s3).
  { unfold do_ldap; rewrite bind_set_errmsg, (loop_head 1 re _ s1 Hready).
    rewrite (bind_Ret _ _ _ _ _ Hdown), (after_dispatch_down _ _ _ Hne).
    now rewrite (bind_Ret _ _ _ _ _ Hu). }
  assert (Hsecond : forall e s4, do_bind s3 = Ret (BIND_OK, e) s4 ->
            do_ldap re s = bind (dispatch re) (after_dispatch 0 re) s4).
  { intros e s4 Hb; rewrite E; apply loop_head.
    exists r3; split; [exact Hr3|]; rewrite Hld3; now exists e. }
  exists v, s3, r3; repeat split; try assumption.
  - intros rc e s4 Hb Hrc; rewrite E.
    exact (loop_bind_failure 0 re s3 s4 r3 rc e Hr3 Hld3 Hb Hrc).
  - intros e s4 s5 Hb Hd; rewrite (Hsecond e s4 Hb).
    rewrite (bind_Ret _ _ _ _ _ Hd); apply after_dispatch_ok.
  - intros e s4 s5 Hb Hd.
    assert (H5 : ri s5 <> None).
    { apply (keeps_dispatch re s4 (inl LDAP_SERVER_DOWN) s5); [|exact Hd].
      apply (keeps_do_bind s3 (BIND_OK, e) s4); [congruence | exact Hb]. }
    destruct (do_unbind_closes s5 H5) as (v' & s6 & _ & Hu' & _).
    exists v', s6; split; [exact Hu'|]; rewrite (Hsecond e s4 Hb).
    rewrite (bind_Ret _ _ _ _ _ Hd), (after_dispatch_down _ _ _ Hne).
    now rewrite (bind_Ret _ _ _ _ _ Hu').
  - intros e s4 s5 lderr Hb Hd N1 N2; rewrite (Hsecond e s4 Hb).
    rewrite (bind_Ret _ _ _ _ _ Hd); now apply after_dispatch_fatal.
  - intros retry sx sx' rx rc e; apply loop_bind_failure.
Qed.

(** ** Binding *)

Lemma bind_ldp_update_options {B} (f : Z -> Z) (k : unit -> M B) (s : St)
    (r : Ri) (ld : LDAP) :
  ri s = Some r -> ri_ldp r = Some ld ->
  bind (ldp_update_options f) k s
  = k tt (with_world
            (set_ld_options ld (f (ld_options ld (world s))) (world s)) s).
Proof.
  intros Hr Hld; unfold bind, ldp_update_options, with_world.
  now rewrite Hr, Hld.
Qed.

Lemma unknown_method_bind (s : St) (r : Ri) :
  ri s = Some r -> ri_ldp r = None ->
  ri_bind_method r <> AUTH_KERBEROS -> ri_bind_method r <> AUTH_SIMPLE ->
  let c := ldap_open (ri_hostname r) (ri_port r) in
  exists s',
    do_bind s
    = Ret (match answer c s with
           | Some _ => BIND_ERR_BAD_ATYPE
           | None => BIND_ERR_OPEN
           end, 0) s' /\
    filter is_call (log s') = filter is_call (log s) ++ [Call c].
Proof.
  intros Hr Hld Hk Hs c.
  unfold do_bind; rewrite bind_ri_ptr, Hr, Hld.
  rewrite bind_ret, bind_debug, bind_do_call; fold c.
  rewrite (bind_ri_set _ _ _ r) by exact Hr.
  match goal with
  | |- context [answer c ?s0] => change (answer c s0) with (answer c s)
  end.
  destruct (answer c s) as [ld|] eqn:Ea.
  - destruct LDAP_REFERRALS.
    + rewrite (bind_ldp_update_options _ _ _ (set_ri_ldp (Some ld) r) ld)
        by reflexivity.
      rewrite (bind_ldp_update_options _ _ _ (set_ri_ldp (Some ld) r) ld)
        by reflexivity.
      destruct (Z.eqb_spec (ri_bind_method r) AUTH_KERBEROS); [contradiction|].
      destruct (Z.eqb_spec (ri_bind_method r) AUTH_SIMPLE); [contradiction|].
      rewrite bind_debug; eexists; split; [reflexivity|].
      cbn [log log_more after_call with_world]; rewrite !filter_app.
      cbn [filter is_call]; now rewrite !app_nil_r.
    + rewrite bind_ret.
      rewrite (bind_ldp_update_options _ _ _ (set_ri_ldp (Some ld) r) ld)
        by reflexivity.
      destruct (Z.eqb_spec (ri_bind_method r) AUTH_KERBEROS); [contradiction|].
      destruct (Z.eqb_spec (ri_bind_method r) AUTH_SIMPLE); [contradiction|].
      rewrite bind_debug; eexists; split; [reflexivity|].
      cbn [log log_more after_call with_world]; rewrite !filter_app.
      cbn [filter is_call]; now rewrite !app_nil_r.
  - unfold bind at 1; rewrite bind_debug.
    eexists; split; [reflexivity|].
    cbn [log log_more after_call with_world]; rewrite !filter_app.
    cbn [filter is_call]; now rewrite !app_nil_r.
Qed.

(** C5, as amended.  On a replica without a session whose bind method is
    neither [AUTH_SIMPLE] nor [AUTH_KERBEROS], [do_bind] first opens the
    connection with [ldap_open] and makes no other call: it returns
    [BIND_ERR_OPEN] when the connection cannot be opened and
    [BIND_ERR_BAD_ATYPE] when it can.  [do_ldap] then returns
    [DO_LDAP_ERR_RETRYABLE], as for every failure of [do_bind], without any
    operation on the replica. *)
Theorem unknown_method_fails_after_open (s : St) (r : Ri) :
  ri s = Some r -> ri_ldp r = None ->
  ri_bind_method r <> AUTH_KERBEROS -> ri_bind_method r <> AUTH_SIMPLE ->
  BIND_ERR_BAD_ATYPE <> BIND_OK -> BIND_ERR_OPEN <> BIND_OK ->
  let c := ldap_open (ri_hostname r) (ri_port r) in
  let code := match answer c s with
              | Some _ => BIND_ERR_BAD_ATYPE
              | None => BIND_ERR_OPEN
              end in
  (exists s', do_bind s = Ret (code, 0) s' /\
              filter is_call (log s') = filter is_call (log s) ++ [Call c]) /\
  (forall re,
     exists s', do_ldap re s = Ret DO_LDAP_ERR_RETRYABLE s' /\
                filter is_call (log s')
                = filter is_call (log s) ++ [Call c]).
Proof.
  intros Hr Hld Hk Hs N1 N2 c code; split.
  - exact (unknown_method_bind s r Hr Hld Hk Hs).
  - intros re.
    destruct (unknown_method_bind (with_errmsg None s) r Hr Hld Hk Hs)
      as (s' & Hb & Hl).
    exists s'; split; [|exact Hl].
    unfold do_ldap; rewrite bind_set_errmsg.
    apply (loop_bind_failure 1 re (with_errmsg None s) s' r _ 0 Hr Hld Hb).
    change (answer (ldap_open (ri_hostname r) (ri_port r))
              (with_errmsg None s)) with (answer c s).
    destruct (answer c s); assumption.
Qed.

(** ** Rename entries *)

Lemma strcmp_refl (a : string) : strcmp a a = 0.
Proof.
  induction a as [|c a IH]; simpl; [reflexivity|].
  rewrite Z.eqb_refl; now destruct (code c =? 0).
Qed.

(** A scan of the arguments that runs to the end has changed nothing. *)
Lemma modrdn_loop_scan (mi : list Mi) (state drdnflag : Z)
    (newrdn : option string) (s s1 : St) (x : Z * Z * option string) :
  modrdn_loop mi state drdnflag newrdn s = Ret (inr x) s1 -> s1 = s.
Proof.
  revert state drdnflag newrdn; induction mi as [|m mi IH]; intros st fl nr.
  - simpl; unfold ret; congruence.
  - simpl.
    destruct (strcmp (mi_type m) T_NEWRDNSTR =? 0); [apply IH|].
    destruct (strcmp (mi_type m) T_DRDNFLAGSTR =? 0).
    + destruct (strcmp (mi_val m) "0" =? 0); [apply IH|].
      destruct (strcmp (mi_val m) "1" =? 0); [apply IH|].
      rewrite bind_debug, bind_set_errmsg; unfold ret; discriminate.
    + rewrite bind_debug, bind_set_errmsg; unfold ret; discriminate.
Qed.

(** When the scan finds both arguments, [ldap_modrdn2_s] is called with the
    value of the first item of the entry, [mi->mi_val], and with the flag
    read; the new RDN that the scan has read is not used. *)
Lemma modrdn_uses_first_item (re : Re) (m0 : Mi) (mi : list Mi) (s s1 : St)
    (r : Ri) (ld : LDAP) (drdnflag : Z) (newrdn : option string) :
  re_mods re = Some (m0 :: mi) ->
  modrdn_loop (m0 :: mi) 0 (-1) None s
  = Ret (inr (GOT_ALLNEWRDNFLAGS, drdnflag, newrdn)) s1 ->
  ri s = Some r -> ri_ldp r = Some ld ->
  let c := ldap_modrdn2_s (Some ld) (re_dn re) (mi_val m0) drdnflag in
  exists ev,
    is_call ev = false /\
    op_ldap_modrdn re s
    = Ret (ld_errno ld (world (after_call c s)))
        (after_call c (log_more [ev] s)).
Proof.
  intros Hm Hloop Hr Hld c.
  pose proof (modrdn_loop_scan _ _ _ _ _ _ _ Hloop) as ->.
  eexists; split; cycle 1.
  - unfold op_ldap_modrdn; rewrite Hm, (bind_Ret _ _ _ _ _ Hloop).
    rewrite Z.eqb_refl; cbn [negb].
    run r Hr; rewrite Hld; fold c.
    unfold ldp_get; cbn [ri after_call log_more]; rewrite Hr, Hld.
    reflexivity.
  - reflexivity.
Qed.

(** C6.  On the rename entry whose items are [deleteoldrdn: 1] then
    [newrdn: n], the scan reads the flag [1] and the new RDN [n], and
    [op_ldap_modrdn] calls [ldap_modrdn2_s] with the flag [1] and, as new RDN,
    the value of the first item: the string ["1"]. *)
Theorem rename_passes_first_value
    (dn n : string) (s : St) (r : Ri) (ld : LDAP) :
  ri s = Some r -> ri_ldp r = Some ld ->
  strcmp T_DRDNFLAGSTR T_NEWRDNSTR <> 0 ->
  let flag := {| mi_type := T_DRDNFLAGSTR; mi_val := "1"; mi_len := 1 |} in
  let name := {| mi_type := T_NEWRDNSTR; mi_val := n;
                 mi_len := Z.of_nat (String.length n) |} in
  let re := {| re_changetype := T_MODRDNCT; re_dn := dn;
               re_mods := Some [flag; name] |} in
  let c := ldap_modrdn2_s (Some ld) dn "1" 1 in
  modrdn_loop [flag; name] 0 (-1) None s
  = Ret (inr (GOT_ALLNEWRDNFLAGS, 1, Some n)) s /\
  exists ev,
    is_call ev = false /\
    op_ldap_modrdn re s
    = Ret (ld_errno ld (world (after_call c s)))
        (after_call c (log_more [ev] s)).
Proof.
  intros Hr Hld Hne flag name re c.
  assert (Hloop : modrdn_loop [flag; name] 0 (-1) None s
                  = Ret (inr (GOT_ALLNEWRDNFLAGS, 1, Some n)) s).
  { simpl.
    destruct (Z.eqb_spec (strcmp T_DRDNFLAGSTR T_NEWRDNSTR) 0);
      [contradiction|].
    now rewrite !strcmp_refl. }
  split; [exact Hloop|].
  exact (modrdn_uses_first_item re flag [name] s s r ld 1 (Some n) eq_refl
           Hloop Hr Hld).
Qed.



(** * Further properties *)


(** ** [op_ldap_add] on an entry with items *)



(** ** [do_ldap] on delete entries and on unknown change types *)

(** X2.  On a delete entry, whatever its items, [do_ldap] on a replica with a
    session makes one call, [ldap_delete_s] for the DN of the entry: when the
    call returns [LDAP_SUCCESS] the result is [DO_LDAP_OK]; when it returns
    an error other than [LDAP_SERVER_DOWN] the result is
    [DO_LDAP_ERR_FATAL], after a message whose arguments are the text of the
    error and then the DN, in this order, and nothing else is called. *)
Theorem delete_outcomes (re : Re) (s : St) (r : Ri) (ld : LDAP) :
  re_changetype re = T_DELETECT ->
  T_DELETECT <> T_ADDCT -> T_DELETECT <> T_MODIFYCT ->
  ri s = Some r -> ri_ldp r = Some ld ->
  let c := ldap_delete_s (Some ld) (re_dn re) in
  let s1 := log_more
              [Debug LDAP_DEBUG_ARGS
                 ("replica %s:%d - delete dn " +++ quoted "%s" +++ nl)
                 (Str (ri_hostname r)) (Int (ri_port r)) (Str (re_dn re))]
              (with_errmsg None s) in
  let rc := answer c s1 in
  (rc = LDAP_SUCCESS -> do_ldap re s = Ret DO_LDAP_OK (after_call c s1)) /\
  (rc <> LDAP_SUCCESS -> rc <> LDAP_SERVER_DOWN ->
   do_ldap re s
   = Ret DO_LDAP_ERR_FATAL
       (log_more
          [Debug LDAP_DEBUG_ANY
             ("Error: ldap_delete_s failed deleting " +++ quoted "%s"
                +++ ": %s" +++ nl)
             (Str (ldap_err2string rc)) (Str (re_dn re)) (Int 0)]
          (after_call c s1))).
Proof.
  intros Hct N1 N2 Hr Hld c s1 rc.
  assert (Hop : op_ldap_delete re (with_errmsg None s)
                = Ret rc (after_call c s1)).
  { unfold op_ldap_delete.
    assert (Hr0 : ri (with_errmsg None s) = Some r) by exact Hr.
    run r Hr0; rewrite Hld; reflexivity. }
  assert (E : do_ldap re s
              = bind (report rc
                        ("Error: ldap_delete_s failed deleting "
                           +++ quoted "%s" +++ ": %s" +++ nl) re)
                  (fun _ => after_dispatch 1 re (inl rc))
                  (after_call c s1)).
  { unfold do_ldap; rewrite bind_set_errmsg.
    rewrite (loop_with_session 1 re (with_errmsg None s) r ld Hr Hld).
    rewrite (dispatch_delete re Hct N1 N2), bind_bind.
    rewrite (bind_Ret _ _ _ _ _ Hop), bind_bind.
    unfold bind at 1 3.
    destruct (report rc _ re (after_call c s1)); reflexivity. }
  split.
  - intros H0; rewrite E, H0.
    rewrite (bind_Ret _ _ _ _ _ (report_success _ _ _)).
    apply after_dispatch_ok.
  - intros H1 H2; rewrite E.
    rewrite (bind_Ret _ _ _ _ _ (report_failure _ _ _ _ H1)).
    now apply after_dispatch_fatal.
Qed.

Lemma dispatch_unknown (re : Re) (s : St) :
  re_changetype re <> T_ADDCT -> re_changetype re <> T_MODIFYCT ->
  re_changetype re <> T_DELETECT -> re_changetype re <> T_MODRDNCT ->
  dispatch re s
  = Ret (inr DO_LDAP_ERR_FATAL)
      (log_more
         [Debug LDAP_DEBUG_ANY
            ("Error: do_ldap: bad op " +++ quoted "%d" +++ ", dn = "
               +++ quoted "%s" +++ nl)
            (Int (re_changetype re)) (Str (re_dn re)) (Int 0)] s).
Proof.
  intros N1 N2 N3 N4; unfold dispatch.
  destruct (Z.eqb_spec (re_changetype re) T_ADDCT); [contradiction|].
  destruct (Z.eqb_spec (re_changetype re) T_MODIFYCT); [contradiction|].
  destruct (Z.eqb_spec (re_changetype re) T_DELETECT); [contradiction|].
  destruct (Z.eqb_spec (re_changetype re) T_MODRDNCT); [contradiction|].
  reflexivity.
Qed.

(** X3.  An entry whose change type is none of the four known ones gets
    [DO_LDAP_ERR_FATAL] after one message and no operation.  But the session
    is looked at before the change type: on a replica without a session
    [do_bind] runs first, and when it fails the result is
    [DO_LDAP_ERR_RETRYABLE] even for such an entry. *)
Theorem unknown_change_type (re : Re) (s : St) (r : Ri) :
  re_changetype re <> T_ADDCT -> re_changetype re <> T_MODIFYCT ->
  re_changetype re <> T_DELETECT -> re_changetype re <> T_MODRDNCT ->
  ri s = Some r ->
  let bad_op :=
    Debug LDAP_DEBUG_ANY
      ("Error: do_ldap: bad op " +++ quoted "%d" +++ ", dn = "
         +++ quoted "%s" +++ nl)
      (Int (re_changetype re)) (Str (re_dn re)) (Int 0) in
  (ri_ldp r <> None ->
   do_ldap re s
   = Ret DO_LDAP_ERR_FATAL (log_more [bad_op] (with_errmsg None s))) /\
  (ri_ldp r = None ->
   forall rc e s1,
     do_bind (with_errmsg None s) = Ret (rc, e) s1 ->
     (rc <> BIND_OK -> do_ldap re s = Ret DO_LDAP_ERR_RETRYABLE s1) /\
     (rc = BIND_OK ->
      do_ldap re s = Ret DO_LDAP_ERR_FATAL (log_more [bad_op] s1))).
Proof.
  intros N1 N2 N3 N4 Hr bad_op; split.
  - intros Hld; destruct (ri_ldp r) as [ld|] eqn:E; [|contradiction].
    unfold do_ldap; rewrite bind_set_errmsg.
    rewrite (loop_with_session 1 re (with_errmsg None s) r ld Hr E).
    now rewrite (bind_Ret _ _ _ _ _ (dispatch_unknown re _ N1 N2 N3 N4)).
  - intros Hld rc e s1 Hb; split.
    + intros Hrc; unfold do_ldap; rewrite bind_set_errmsg.
      exact (loop_bind_failure 1 re (with_errmsg None s) s1 r rc e Hr Hld Hb
               Hrc).
    + intros ->; unfold do_ldap; rewrite bind_set_errmsg.
      rewrite (loop_head 1 re (with_errmsg None s) s1).
      * now rewrite (bind_Ret _ _ _ _ _ (dispatch_unknown re _ N1 N2 N3 N4)).
      * exists r; split; [exact Hr|]; rewrite Hld; now exists e.
Qed.

(** ** [do_unbind] *)

(** X4.  [do_unbind] never fails and is idempotent: it leaves the replica
    without a session, a second [do_unbind] calls nothing, changes nothing
    and returns [LDAP_SUCCESS]; on a replica without a session, or on a NULL
    [ri], the first one already does so. *)
Theorem do_unbind_idempotent (s : St) :
  exists v s',
    do_unbind s = Ret v s' /\
    (forall r, ri s' = Some r -> ri_ldp r = None) /\
    do_unbind s' = Ret LDAP_SUCCESS s' /\
    (~ has_session s -> v = LDAP_SUCCESS /\ s' = s).
Proof.
  unfold do_unbind; rewrite !bind_ri_ptr.
  destruct (ri s) as [r|] eqn:Hr.
  - destruct (ri_ldp r) as [ld|] eqn:Hld.
    + rewrite bind_do_call.
      set (c := ldap_unbind (Some ld)).
      assert (Hr' : ri (after_call c s) = Some r) by exact Hr.
      assert (Hno : ~ ~ has_session s) by (intros H; apply H; now exists r, ld).
      destruct (negb (answer c s =? LDAP_SUCCESS)).
      * rewrite bind_debug, (bind_ri_set _ _ _ r) by exact Hr'.
        eexists; eexists; split; [reflexivity|]; split; [|split].
        -- intros r' [= <-]; reflexivity.
        -- reflexivity.
        -- intros H; contradiction.
      * rewrite bind_ret, (bind_ri_set _ _ _ r) by exact Hr'.
        eexists; eexists; split; [reflexivity|]; split; [|split].
        -- intros r' [= <-]; reflexivity.
        -- reflexivity.
        -- intros H; contradiction.
    + exists LDAP_SUCCESS, s; split; [reflexivity|]; split; [|split].
      * intros r' Hr'; rewrite Hr in Hr'; injection Hr' as <-; exact Hld.
      * rewrite bind_ri_ptr, Hr, Hld; reflexivity.
      * now split.
  - exists LDAP_SUCCESS, s; split; [reflexivity|]; split; [|split].
    + intros r' Hr'; congruence.
    + now rewrite bind_ri_ptr, Hr.
    + now split.
Qed.

(** ** [do_bind] *)

Lemma do_bind_fresh (s : St) (r : Ri) :
  ri s = Some r -> ri_ldp r = None ->
  let c := ldap_open (ri_hostname r) (ri_port r) in
  let s1 := after_call c
              (log_more
                 [Debug LDAP_DEBUG_ARGS ("Open connection to %s:%d" +++ nl)
                    (Str (ri_hostname r)) (Int (ri_port r)) (Int 0)] s) in
  match answer c s with
  | None =>
      do_bind s
      = Ret (BIND_ERR_OPEN, 0)
          (log_more
             [Debug LDAP_DEBUG_ANY
                ("Error: ldap_open(%s, %d) failed: %s" +++ nl)
                (Str (ri_hostname r)) (Int (ri_port r))
                (Str (sys_errlist (errno (world s1))))]
             (with_ri (set_ri_ldp None r) s1))
  | Some h =>
      let s2 := with_world (configured h (world s1))
                  (with_ri (set_ri_ldp (Some h) r) s1) in
      do_bind s
      = (if ri_bind_method r =? AUTH_KERBEROS then
           if KERBEROS then kerberos_bind
           else
             debug LDAP_DEBUG_ANY
               ("Error: Kerberos bind for %s:%d, but not compiled w/kerberos"
                  +++ nl)
               (Str (ri_hostname r)) (Int (ri_port r)) (Int 0) ;;
             ret (BIND_ERR_KERBEROS_FAILED, 0)
         else if ri_bind_method r =? AUTH_SIMPLE then
           debug LDAP_DEBUG_ARGS ("bind to %s:%d as %s (simple)" +++ nl)
             (Str (ri_hostname r)) (Int (ri_port r)) (Str (ri_bind_dn r)) ;;
           ldrc <- do_call (ldap_simple_bind_s (Some h)
                              (Some (ri_bind_dn r)) (Some (ri_password r))) ;;
           if negb (ldrc =? LDAP_SUCCESS) then
             debug LDAP_DEBUG_ANY
               ("Error: ldap_simple_bind_s for %s:%d failed: %s" +++ nl)
               (Str (ri_hostname r)) (Int (ri_port r))
               (Str (ldap_err2string ldrc)) ;;
             ret (BIND_ERR_SIMPLE_FAILED, ldrc)
           else ret (BIND_OK, 0)
         else
           debug LDAP_DEBUG_ANY
             ("Error: do_bind: unknown auth type " +++ quoted "%d"
                +++ " for %s:%d" +++ nl)
             (Int (ri_bind_method r)) (Str (ri_hostname r))
             (Int (ri_port r)) ;;
           ret (BIND_ERR_BAD_ATYPE, 0)) s2
  end.
Proof.
  intros Hr Hld c s1.
  unfold do_bind; rewrite bind_ri_ptr, Hr, Hld.
  rewrite bind_ret, bind_debug, bind_do_call; fold c.
  rewrite (bind_ri_set _ _ _ r) by exact Hr.
  assert (Hans : forall evs, answer c (log_more evs s) = answer c s)
    by reflexivity.
  rewrite !Hans.
  destruct (answer c s) as [h|] eqn:Ea.
  - cbv zeta; unfold configured.
    destruct LDAP_REFERRALS.
    + rewrite (bind_ldp_update_options _ _ _ (set_ri_ldp (Some h) r) h)
        by reflexivity.
      rewrite (bind_ldp_update_options _ _ _ (set_ri_ldp (Some h) r) h)
        by reflexivity.
      reflexivity.
    + rewrite bind_ret.
      rewrite (bind_ldp_update_options _ _ _ (set_ri_ldp (Some h) r) h)
        by reflexivity.
      reflexivity.
  - unfold bind at 1; rewrite bind_debug; reflexivity.
Qed.

Lemma do_bind_stale (s : St) (r : Ri) (ld : LDAP) :
  ri s = Some r -> ri_ldp r = Some ld ->
  let c := ldap_unbind (Some ld) in
  let report :=
    if negb (answer c s =? LDAP_SUCCESS)
    then [Debug LDAP_DEBUG_ANY
            ("Error: do_bind: ldap_unbind failed: %s" +++ nl)
            (Str (ldap_err2string (answer c s))) (Int 0) (Int 0)]
    else [] in
  do_bind s
  = do_bind (with_ri (set_ri_ldp None r) (log_more report (after_call c s))).
Proof.
  intros Hr Hld c report.
  unfold do_bind at 1; rewrite bind_ri_ptr, Hr, Hld, bind_bind, bind_do_call.
  fold c; unfold report.
  assert (Hr' : ri (after_call c s) = Some r) by exact Hr.
  destruct (negb (answer c s =? LDAP_SUCCESS)).
  - rewrite bind_bind, bind_debug.
    rewrite (bind_ri_set _ _ _ r) by exact Hr'.
    unfold do_bind; rewrite bind_ri_ptr; reflexivity.
  - rewrite bind_bind, bind_ret.
    rewrite (bind_ri_set _ _ _ r) by exact Hr'.
    unfold do_bind; rewrite bind_ri_ptr, log_more_nil; reflexivity.
Qed.

(** X6.  The outcomes of a bind with a plaintext password, on a replica
    without a session.  When [ldap_open] gives no handle the result is
    [BIND_ERR_OPEN], the replica stays without a session and nothing else is
    called.  When it gives a handle, the options are set and
    [ldap_simple_bind_s] is called with the bind DN and the password of the
    replica: on [LDAP_SUCCESS] the result is [BIND_OK]; on an error the
    result is [BIND_ERR_SIMPLE_FAILED] with the error behind [lderr].  In
    both cases the handle stays in [ri_ldp]. *)
Theorem simple_bind_outcomes (s : St) (r : Ri) :
  ri s = Some r -> ri_ldp r = None ->
  ri_bind_method r = AUTH_SIMPLE -> AUTH_SIMPLE <> AUTH_KERBEROS ->
  let c := ldap_open (ri_hostname r) (ri_port r) in
  match answer c s with
  | None =>
      exists s',
        do_bind s = Ret (BIND_ERR_OPEN, 0) s' /\
        ri s' = Some r /\
        filter is_call (log s') = filter is_call (log s) ++ [Call c]
  | Some h =>
      let b := ldap_simple_bind_s (Some h) (Some (ri_bind_dn r))
                 (Some (ri_password r)) in
      let rc := answer b (with_world (configured h (world (after_call c s)))
                            s) in
      exists s',
        do_bind s
        = Ret (if rc =? LDAP_SUCCESS then (BIND_OK, 0)
               else (BIND_ERR_SIMPLE_FAILED, rc)) s' /\
        ri s' = Some (set_ri_ldp (Some h) r) /\
        filter is_call (log s')
        = filter is_call (log s) ++ [Call c; Call b]
  end.
Proof.
  intros Hr Hld Hm Hne c.
  pose proof (do_bind_fresh s r Hr Hld) as H; cbv zeta in H; fold c in H.
  destruct (answer c s) as [h|] eqn:Ea.
  - intros b rc; rewrite H, Hm.
    destruct (Z.eqb_spec AUTH_SIMPLE AUTH_KERBEROS); [contradiction|].
    rewrite Z.eqb_refl, bind_debug, bind_do_call.
    match goal with
    | |- context [answer ?b' ?s0] =>
        change (answer b' s0) with rc
    end.
    destruct (rc =? LDAP_SUCCESS); cbn [negb].
    + eexists; split; [reflexivity|]; split; [reflexivity|].
      cbn [log log_more after_call with_world with_ri]; rewrite !filter_app.
      cbn [filter is_call]; rewrite !app_nil_r, <- app_assoc; reflexivity.
    + rewrite bind_debug.
      eexists; split; [reflexivity|]; split; [reflexivity|].
      cbn [log log_more after_call with_world with_ri]; rewrite !filter_app.
      cbn [filter is_call]; rewrite !app_nil_r, <- app_assoc; reflexivity.
  - rewrite H; eexists; split; [reflexivity|]; split.
    + cbn [ri log_more with_ri]; rewrite <- Hld; now destruct r.
    + cbn [log log_more after_call with_world with_ri]; rewrite !filter_app.
      cbn [filter is_call]; now rewrite !app_nil_r.
Qed.

(** X7.  On a library built without Kerberos, a replica whose bind method is
    [AUTH_KERBEROS] fails explicitly: after [ldap_open] has given a handle,
    [do_bind] reports that Kerberos is not compiled in and returns
    [BIND_ERR_KERBEROS_FAILED] without any bind or search call. *)
Theorem kerberos_not_compiled (s : St) (r : Ri) (h : LDAP) :
  ri s = Some r -> ri_ldp r = None ->
  ri_bind_method r = AUTH_KERBEROS -> KERBEROS = false ->
  let c := ldap_open (ri_hostname r) (ri_port r) in
  answer c s = Some h ->
  exists s',
    do_bind s = Ret (BIND_ERR_KERBEROS_FAILED, 0) s' /\
    filter is_call (log s') = filter is_call (log s) ++ [Call c] /\
    In (Debug LDAP_DEBUG_ANY
          ("Error: Kerberos bind for %s:%d, but not compiled w/kerberos"
             +++ nl)
          (Str (ri_hostname r)) (Int (ri_port r)) (Int 0)) (log s').
Proof.
  intros Hr Hld Hm Hk c Ha.
  pose proof (do_bind_fresh s r Hr Hld) as H; cbv zeta in H; fold c in H.
  rewrite Ha in H; rewrite H, Hm, Z.eqb_refl, Hk, bind_debug.
  eexists; split; [reflexivity|]; split.
  - cbn [log log_more after_call with_world with_ri]; rewrite !filter_app.
    cbn [filter is_call]; now rewrite !app_nil_r.
  - cbn [log log_more]; apply in_or_app; right; now left.
Qed.

(** ** What [op_ldap_modify] compiles *)





(** ** What a run adds to the log *)

Section Adds.

Variable P : event -> bool.

Lemma adds_weaken {A} (n n' : nat) (m : M A) :
  (n <= n')%nat -> adds P n m -> adds P n' m.
Proof.
  intros Hn H s; destruct (H s) as (evs & E & Hc); exists evs; split;
    [exact E | lia].
Qed.

Lemma adds_ret {A} (a : A) : adds P 0 (ret a).
Proof. intros s; exists []; simpl; now rewrite app_nil_r. Qed.

Lemma adds_raise {A} (f : fault) : adds P 0 (@raise lib A f).
Proof. intros s; exists []; simpl; now rewrite app_nil_r. Qed.

Lemma adds_bind {A B} (n1 n2 : nat) (m : M A) (k : A -> M B) :
  adds P n1 m -> (forall a, adds P n2 (k a)) -> adds P (n1 + n2) (bind m k).
Proof.
  intros Hm Hk s; destruct (Hm s) as (e1 & E1 & H1); unfold bind.
  destruct (m s) as [a s1|f s1]; cbn [final] in E1.
  - destruct (Hk a s1) as (e2 & E2 & H2); exists (e1 ++ e2); split.
    + now rewrite E2, E1, app_assoc.
    + rewrite filter_app, length_app; lia.
  - exists e1; split; [exact E1 | lia].
Qed.

Lemma adds_bind_quiet {A B} (m : M A) (k : A -> M B) :
  adds P 0 m -> (forall a, adds P 0 (k a)) -> adds P 0 (bind m k).
Proof. exact (adds_bind 0 0 m k). Qed.

Lemma adds_bind_first {A B} (n : nat) (m : M A) (k : A -> M B) :
  adds P n m -> (forall a, adds P 0 (k a)) -> adds P n (bind m k).
Proof.
  intros Hm Hk; apply (adds_weaken (n + 0)); [lia | now apply adds_bind].
Qed.

Lemma adds_bind_then {A B} (n : nat) (m : M A) (k : A -> M B) :
  adds P 0 m -> (forall a, adds P n (k a)) -> adds P n (bind m k).
Proof. exact (adds_bind 0 n m k). Qed.

Lemma adds_emit_one (e : event) : adds P 1 (emit e).
Proof.
  intros s; exists [e]; split; [reflexivity|]; simpl; destruct (P e); simpl;
    lia.
Qed.

Lemma adds_emit (e : event) : P e = false -> adds P 0 (emit e).
Proof.
  intros H s; exists [e]; split; [reflexivity|]; simpl; now rewrite H.
Qed.

Lemma adds_debug lv fmt a1 a2 a3 :
  P (Debug lv fmt a1 a2 a3) = false -> adds P 0 (debug lv fmt a1 a2 a3).
Proof. apply adds_emit. Qed.

Lemma adds_do_call_one {T} (c : call T) : adds P 1 (do_call c).
Proof.
  intros s; exists [Call c]; unfold do_call.
  destruct (perform T c (world s)); split; [reflexivity|]; simpl.
  destruct (P (Call c)); simpl; lia.
Qed.

Lemma adds_do_call {T} (c : call T) :
  P (Call c) = false -> adds P 0 (do_call c).
Proof.
  intros H s; exists [Call c]; unfold do_call.
  destruct (perform T c (world s)); split; [reflexivity|]; simpl.
  now rewrite H.
Qed.

Lemma adds_silent {A} (m : M A) :
  (forall s, log (final (m s)) = log s) -> adds P 0 m.
Proof.
  intros H s; exists []; rewrite H, app_nil_r; split; [reflexivity|].
  simpl; lia.
Qed.

Lemma adds_set_errmsg (m : option string) : adds P 0 (set_errmsg m).
Proof. now apply adds_silent. Qed.

Lemma adds_get_errmsg : adds P 0 get_errmsg.
Proof. now apply adds_silent. Qed.

Lemma adds_ri_ptr : adds P 0 ri_ptr.
Proof. now apply adds_silent. Qed.

Lemma adds_ri_get {A} (field : Ri -> A) : adds P 0 (ri_get field).
Proof. apply adds_silent; intros s; unfold ri_get; now destruct (ri s). Qed.

Lemma adds_ri_set (upd : Ri -> Ri) : adds P 0 (ri_set upd).
Proof. apply adds_silent; intros s; unfold ri_set; now destruct (ri s). Qed.

Lemma adds_ldp_get {A} (field : LDAP -> World -> A) :
  adds P 0 (ldp_get field).
Proof.
  apply adds_silent; intros s; unfold ldp_get.
  destruct (ri s) as [r|]; [destruct (ri_ldp r)|]; reflexivity.
Qed.

Lemma adds_ldp_update_options (f : Z -> Z) :
  adds P 0 (ldp_update_options f).
Proof.
  apply adds_silent; intros s; unfold ldp_update_options.
  destruct (ri s) as [r|]; [destruct (ri_ldp r)|]; reflexivity.
Qed.

Lemma adds_read {A} (f : St -> A) : adds P 0 (fun s => Ret (f s) s).
Proof. now apply adds_silent. Qed.

Lemma adds_store {A} (arr : list A) (n : Z) (x : A) :
  adds P 0 (store arr n x).
Proof.
  unfold store; destruct (n =? _); [apply adds_ret|].
  destruct (_ && _); [apply adds_ret | apply adds_raise].
Qed.

Lemma adds_terminate {A} (arr : list A) (n : Z) :
  adds P 0 (terminate arr n).
Proof.
  unfold terminate; destruct (_ && _); [apply adds_ret | apply adds_raise].
Qed.

End Adds.

(** [quiet] proves that a run adds no event that [P] holds of, when this
    shows on every call; [one_call] that it adds at most one. *)
Ltac quiet :=
  repeat first
    [ solve [auto]
    | apply adds_ret | apply adds_raise | apply adds_set_errmsg
    | apply adds_get_errmsg | apply adds_ri_ptr | apply adds_ri_get
    | apply adds_ri_set | apply adds_ldp_get | apply adds_ldp_update_options
    | apply adds_read | apply adds_store | apply adds_terminate
    | apply adds_debug; reflexivity
    | apply adds_do_call; reflexivity
    | apply adds_bind_quiet; [|intros ?]
    | match goal with
      | |- adds _ _ (match ?x with _ => _ end) => destruct x
      | |- adds _ _ (if ?b then _ else _) => destruct b
      end ].

Ltac one_call :=
  repeat first
    [ solve [apply (adds_weaken _ 0); [lia | quiet]]
    | apply adds_do_call_one
    | apply adds_bind_then; [solve [quiet] | intros ?]
    | apply adds_bind_first; [|intros ?; solve [quiet]]
    | match goal with
      | |- adds _ _ (match ?x with _ => _ end) => destruct x
      | |- adds _ _ (if ?b then _ else _) => destruct b
      end ].

Lemma adds_free_ldmarr (P : event -> bool) (ldmarr : option (list LDAPMod)) :
  adds P 0 (free_ldmarr ldmarr).
Proof.
  destruct ldmarr as [arr|]; simpl; [|apply adds_raise].
  induction arr; simpl; unfold free_ldapmod; quiet.
Qed.

Lemma adds_add_loop (P : event -> bool) (mi : list Mi) ldmarr nattrs :
  adds P 0 (add_loop mi ldmarr nattrs).
Proof. revert ldmarr nattrs; induction mi; intros; simpl; quiet. Qed.

Lemma adds_modify_loop (P : event -> bool) (mi : list Mi) (l : locals) :
  (forall lv fmt a1 a2 a3, P (Debug lv fmt a1 a2 a3) = false) ->
  adds P 0 (modify_loop mi l).
Proof.
  intros HP; revert l; induction mi; intros; simpl;
    unfold modify_step, modify_open, modify_value; quiet;
    apply adds_debug, HP.
Qed.

Lemma adds_modrdn_loop (P : event -> bool) (mi : list Mi) st fl nr :
  (forall lv fmt a1 a2 a3, P (Debug lv fmt a1 a2 a3) = false) ->
  adds P 0 (modrdn_loop mi st fl nr).
Proof.
  intros HP; revert st fl nr; induction mi; intros; simpl; quiet;
    apply adds_debug, HP.
Qed.

Lemma no_debug_operation lv fmt a1 a2 a3 :
  is_operation (Debug lv fmt a1 a2 a3) = false.
Proof. reflexivity. Qed.

Lemma no_debug_open lv fmt a1 a2 a3 : is_open (Debug lv fmt a1 a2 a3) = false.
Proof. reflexivity. Qed.

Lemma no_debug_session lv fmt a1 a2 a3 :
  is_session_call (Debug lv fmt a1 a2 a3) = false.
Proof. reflexivity. Qed.

(** Each operation makes at most one call that is an operation, and no
    other call. *)
Lemma adds_dispatch_operation (re : Re) : adds is_operation 1 (dispatch re).
Proof.
  pose proof (adds_add_loop is_operation).
  pose proof (adds_free_ldmarr is_operation).
  pose proof (fun mi l => adds_modify_loop is_operation mi l
                            no_debug_operation).
  pose proof (fun mi a b c => adds_modrdn_loop is_operation mi a b c
                                no_debug_operation).
  unfold dispatch, report, failure_text, op_ldap_add, op_ldap_modify,
    op_ldap_delete, op_ldap_modrdn.
  one_call.
Qed.

Lemma adds_dispatch_session (re : Re) :
  adds is_session_call 0 (dispatch re).
Proof.
  pose proof (adds_add_loop is_session_call).
  pose proof (adds_free_ldmarr is_session_call).
  pose proof (fun mi l => adds_modify_loop is_session_call mi l
                            no_debug_session).
  pose proof (fun mi a b c => adds_modrdn_loop is_session_call mi a b c
                                no_debug_session).
  unfold dispatch, report, failure_text, op_ldap_add, op_ldap_modify,
    op_ldap_delete, op_ldap_modrdn.
  quiet.
Qed.

Lemma adds_dispatch_open (re : Re) : adds is_open 0 (dispatch re).
Proof.
  pose proof (adds_add_loop is_open).
  pose proof (adds_free_ldmarr is_open).
  pose proof (fun mi l => adds_modify_loop is_open mi l no_debug_open).
  pose proof (fun mi a b c => adds_modrdn_loop is_open mi a b c
                                no_debug_open).
  unfold dispatch, report, failure_text, op_ldap_add, op_ldap_modify,
    op_ldap_delete, op_ldap_modrdn.
  quiet.
Qed.

Lemma adds_tgt_loop (P : event -> bool) (krbnames : list string) :
  (forall lv fmt a1 a2 a3, P (Debug lv fmt a1 a2 a3) = false) ->
  (forall n, P (Call (kname_parse n)) = false) ->
  (forall a b c d e f g,
     P (Call (krb_get_svc_in_tkt a b c d e f g)) = false) ->
  adds P 0 (tgt_loop krbnames).
Proof.
  intros H1 H2 H3; induction krbnames; simpl; quiet;
    first [apply adds_debug, H1 | apply adds_do_call, H2
          | apply adds_do_call, H3].
Qed.

Lemma adds_do_bind_operation : adds is_operation 0 do_bind.
Proof.
  pose proof (fun k => adds_tgt_loop is_operation k no_debug_operation
                         (fun _ => eq_refl)
                         (fun _ _ _ _ _ _ _ => eq_refl)).
  unfold do_bind, kerberos_bind, read_krbnames; quiet.
Qed.

Lemma adds_do_bind_open : adds is_open 1 do_bind.
Proof.
  pose proof (fun k => adds_tgt_loop is_open k no_debug_open
                         (fun _ => eq_refl)
                         (fun _ _ _ _ _ _ _ => eq_refl)).
  unfold do_bind, kerberos_bind, read_krbnames; one_call.
Qed.

Lemma adds_do_unbind (P : event -> bool) :
  (forall lv fmt a1 a2 a3, P (Debug lv fmt a1 a2 a3) = false) ->
  (forall ld, P (Call (ldap_unbind ld)) = false) ->
  adds P 0 do_unbind.
Proof.
  intros H1 H2; unfold do_unbind; quiet;
    first [apply adds_debug, H1 | apply adds_do_call, H2].
Qed.

Lemma adds_loop_operation (retry : nat) (re : Re) :
  adds is_operation retry (do_ldap_loop retry re).
Proof.
  induction retry as [|retry IH]; simpl; [apply adds_ret|].
  apply adds_bind_then; [apply adds_ri_get | intros ldp].
  apply adds_bind_then.
  { destruct ldp; [apply adds_ret|].
    apply adds_bind_quiet; [apply adds_do_bind_operation | intros; quiet]. }
  intros bound; destruct (negb bound);
    [apply (adds_weaken _ 0); [lia | apply adds_ret]|].
  apply (adds_bind _ 1 retry); [apply adds_dispatch_operation|].
  intros [lderr|v]; [|apply (adds_weaken _ 0); [lia | apply adds_ret]].
  destruct (lderr =? LDAP_SUCCESS);
    [apply (adds_weaken _ 0); [lia | apply adds_ret]|].
  destruct (lderr =? LDAP_SERVER_DOWN);
    [|apply (adds_weaken _ 0); [lia | apply adds_ret]].
  apply adds_bind_then; [|intros; exact IH].
  apply adds_do_unbind; reflexivity.
Qed.

Lemma adds_loop_open (retry : nat) (re : Re) :
  adds is_open retry (do_ldap_loop retry re).
Proof.
  induction retry as [|retry IH]; simpl; [apply adds_ret|].
  apply adds_bind_then; [apply adds_ri_get | intros ldp].
  apply (adds_bind _ 1 retry).
  { destruct ldp; [apply (adds_weaken _ 0); [lia | apply adds_ret]|].
    apply adds_bind_first; [apply adds_do_bind_open | intros; quiet]. }
  intros bound; destruct (negb bound);
    [apply (adds_weaken _ 0); [lia | apply adds_ret]|].
  apply adds_bind_then; [apply adds_dispatch_open|].
  intros [lderr|v]; [|apply (adds_weaken _ 0); [lia | apply adds_ret]].
  destruct (lderr =? LDAP_SUCCESS);
    [apply (adds_weaken _ 0); [lia | apply adds_ret]|].
  destruct (lderr =? LDAP_SERVER_DOWN);
    [|apply (adds_weaken _ 0); [lia | apply adds_ret]].
  apply adds_bind_then; [|intros; exact IH].
  apply adds_do_unbind; reflexivity.
Qed.

(** X9.  Whatever the entry, whatever the library answers and however the run
    ends, [do_ldap] only adds to the log, makes at most two operations on
    the replica and opens at most two connections. *)
Theorem do_ldap_bounded (re : Re) :
  adds is_operation 2 (do_ldap re) /\ adds is_open 2 (do_ldap re).
Proof.
  split; unfold do_ldap.
  - apply adds_bind_then; [apply adds_set_errmsg | intros _].
    apply adds_loop_operation.
  - apply adds_bind_then; [apply adds_set_errmsg | intros _].
    apply adds_loop_open.
Qed.

(** ** More on [do_bind] *)

(** X5.  [do_bind] never authenticates on a handle it finds: on a replica
    that has a session it first calls [ldap_unbind] on the handle, a failure
    of which is only reported, and clears [ri_ldp]; what follows is [do_bind]
    on the replica without a session, so that the next call is [ldap_open]
    and the old handle is not used again. *)
Theorem bind_unbinds_first (s : St) (r : Ri) (ld : LDAP) :
  ri s = Some r -> ri_ldp r = Some ld ->
  let c := ldap_unbind (Some ld) in
  let o := ldap_open (ri_hostname r) (ri_port r) in
  exists s0 evs,
    do_bind s = do_bind s0 /\
    ri s0 = Some (set_ri_ldp None r) /\
    world s0 = world (after_call c s) /\
    filter is_call (log s0) = filter is_call (log s) ++ [Call c] /\
    log (final (do_bind s)) = log s0 ++ evs /\
    hd_error (filter is_call evs) = Some (Call o).
Proof.
  intros Hr Hld c o.
  pose proof (do_bind_stale s r ld Hr Hld) as E; cbv zeta in E; fold c in E.
  set (s0 := with_ri _ _) in E.
  assert (Hl0 : filter is_call (log s0) = filter is_call (log s) ++ [Call c]).
  { unfold s0; cbn [log with_ri log_more after_call]; rewrite !filter_app.
    cbn [filter is_call].
    destruct (negb (answer c s =? LDAP_SUCCESS)); cbn [filter is_call];
      now rewrite app_nil_r. }
  pose proof (do_bind_fresh s0 (set_ri_ldp None r) eq_refl eq_refl) as F.
  cbv zeta in F.
  change (ri_hostname (set_ri_ldp None r)) with (ri_hostname r) in F.
  change (ri_port (set_ri_ldp None r)) with (ri_port r) in F.
  fold o in F.
  assert (Hopen : exists evs,
            log (final (do_bind s0)) = log s0 ++ evs /\
            hd_error (filter is_call evs) = Some (Call o)).
  { destruct (answer o s0) as [h|].
    - rewrite F.
      match goal with
      | |- context [final (?m ?s2)] =>
          assert (Hm : adds is_operation 0 m)
      end.
      { pose proof (fun k => adds_tgt_loop is_operation k no_debug_operation
                               (fun _ => eq_refl)
                               (fun _ _ _ _ _ _ _ => eq_refl)).
        unfold kerberos_bind, read_krbnames; quiet. }
      match goal with
      | |- context [final (?m ?s2)] =>
          destruct (Hm s2) as (evs & Hevs & _)
      end.
      eexists; split.
      + rewrite Hevs; cbn [log with_world with_ri after_call log_more].
        rewrite <- !app_assoc; reflexivity.
      + reflexivity.
    - rewrite F; eexists; split.
      + cbn [final log with_ri after_call log_more].
        rewrite <- !app_assoc; reflexivity.
      + reflexivity. }
  destruct Hopen as (evs & Hevs & Hhd).
  exists s0, evs; rewrite E; repeat split; assumption.
Qed.

(** ** The operations do not write to the replica struct *)

Lemma fixes_ret {A} (a : A) : fixes_ri (ret a).
Proof. intros s a' s' E; now inversion E. Qed.

Lemma fixes_raise {A} (f : fault) : fixes_ri (@raise lib A f).
Proof. intros s a s' E; discriminate. Qed.

Lemma fixes_bind {A B} (m : M A) (k : A -> M B) :
  fixes_ri m -> (forall a, fixes_ri (k a)) -> fixes_ri (bind m k).
Proof.
  intros Hm Hk s b s' E; unfold bind in E.
  destruct (m s) as [a s1|] eqn:E1; [|discriminate].
  rewrite (Hk a s1 b s' E); exact (Hm s a s1 E1).
Qed.

Lemma fixes_debug lv fmt a1 a2 a3 : fixes_ri (debug lv fmt a1 a2 a3).
Proof. intros s a s' E; now inversion E. Qed.

Lemma fixes_do_call {T} (c : call T) : fixes_ri (do_call c).
Proof.
  intros s a s'; unfold do_call; destruct (perform T c (world s)).
  intros E; now inversion E.
Qed.

Lemma fixes_set_errmsg (m : option string) : fixes_ri (set_errmsg m).
Proof. intros s a s' E; now inversion E. Qed.

Lemma fixes_get_errmsg : fixes_ri get_errmsg.
Proof. intros s a s' E; now inversion E. Qed.

Lemma fixes_ri_ptr : fixes_ri ri_ptr.
Proof. intros s a s' E; now inversion E. Qed.

Lemma fixes_ri_get {A} (field : Ri -> A) : fixes_ri (ri_get field).
Proof.
  intros s a s'; unfold ri_get; destruct (ri s) eqn:Hr; [|discriminate].
  intros E; inversion E; subst; assumption.
Qed.

Lemma fixes_ldp_get {A} (field : LDAP -> World -> A) :
  fixes_ri (ldp_get field).
Proof.
  intros s a s'; unfold ldp_get.
  destruct (ri s) as [r|] eqn:Hr; [|discriminate].
  destruct (ri_ldp r); [|discriminate].
  intros E; inversion E; subst; auto.
Qed.

Lemma fixes_ldp_update_options (f : Z -> Z) :
  fixes_ri (ldp_update_options f).
Proof.
  intros s a s'; unfold ldp_update_options.
  destruct (ri s) as [r|] eqn:Hr; [|discriminate].
  destruct (ri_ldp r); [|discriminate].
  intros E; inversion E; subst; auto.
Qed.

Lemma fixes_read {A} (f : St -> A) : fixes_ri (fun s => Ret (f s) s).
Proof. intros s a s' E; now inversion E. Qed.

Lemma fixes_store {A} (arr : list A) (n : Z) (x : A) :
  fixes_ri (store arr n x).
Proof.
  unfold store; destruct (n =? _); [apply fixes_ret|].
  destruct (_ && _); [apply fixes_ret | apply fixes_raise].
Qed.

Lemma fixes_terminate {A} (arr : list A) (n : Z) :
  fixes_ri (terminate arr n).
Proof.
  unfold terminate; destruct (_ && _); [apply fixes_ret | apply fixes_raise].
Qed.

Ltac fixes :=
  repeat first
    [ solve [auto]
    | apply fixes_ret | apply fixes_raise | apply fixes_debug
    | apply fixes_do_call | apply fixes_set_errmsg | apply fixes_get_errmsg
    | apply fixes_ri_ptr | apply fixes_ri_get | apply fixes_ldp_get
    | apply fixes_ldp_update_options | apply fixes_read
    | apply fixes_store | apply fixes_terminate
    | apply fixes_bind; [|intros ?]
    | match goal with
      | |- fixes_ri (match ?x with _ => _ end) => destruct x
      | |- fixes_ri (if ?b then _ else _) => destruct b
      end ].

Lemma fixes_free_ldmarr (ldmarr : option (list LDAPMod)) :
  fixes_ri (free_ldmarr ldmarr).
Proof.
  destruct ldmarr as [arr|]; simpl; [|apply fixes_raise].
  induction arr; simpl; unfold free_ldapmod; fixes.
Qed.

Lemma fixes_add_loop (mi : list Mi) ldmarr nattrs :
  fixes_ri (add_loop mi ldmarr nattrs).
Proof. revert ldmarr nattrs; induction mi; intros; simpl; fixes. Qed.

Lemma fixes_modify_loop (mi : list Mi) (l : locals) :
  fixes_ri (modify_loop mi l).
Proof.
  revert l; induction mi; intros; simpl;
    unfold modify_step, modify_open, modify_value; fixes.
Qed.

Lemma fixes_modrdn_loop (mi : list Mi) st fl nr :
  fixes_ri (modrdn_loop mi st fl nr).
Proof. revert st fl nr; induction mi; intros; simpl; fixes. Qed.

Lemma fixes_dispatch (re : Re) : fixes_ri (dispatch re).
Proof.
  pose proof fixes_add_loop; pose proof fixes_free_ldmarr.
  pose proof fixes_modify_loop; pose proof fixes_modrdn_loop.
  unfold dispatch, report, failure_text, op_ldap_add, op_ldap_modify,
    op_ldap_delete, op_ldap_modrdn.
  fixes.
Qed.

Lemma dispatch_inr (re : Re) (s s' : St) (v : Z) :
  dispatch re s = Ret (inr v) s' -> v = DO_LDAP_ERR_FATAL.
Proof.
  assert (H : forall (op : Re -> M Z) (k : Z -> M unit),
            (lderr <- op re ;; k lderr ;; ret (inl lderr)) s
            <> Ret (inr v) s').
  { intros op k; unfold bind, ret.
    destruct (op re s) as [lderr s1|]; [|discriminate].
    destruct (k lderr s1); discriminate. }
  unfold dispatch.
  repeat match goal with
         | |- context [if ?b then _ else _] => destruct b
         end;
    try (intros E; now apply H in E).
  rewrite bind_debug; unfold ret; congruence.
Qed.

(** X10.  A rejected entry or an error of the replica does not cost the
    session: when the operation on a replica with a session ends otherwise
    than with [LDAP_SERVER_DOWN], [do_ldap] returns at once, [DO_LDAP_OK] on
    [LDAP_SUCCESS] and [DO_LDAP_ERR_FATAL] on anything else, with the
    replica struct as it was and without any call that opens, binds or
    unbinds. *)
Theorem errors_keep_session (re : Re) (s s' : St) (r : Ri) (ld : LDAP)
    (d : Z + Z) :
  ri s = Some r -> ri_ldp r = Some ld ->
  dispatch re (with_errmsg None s) = Ret d s' ->
  d <> inl LDAP_SERVER_DOWN ->
  do_ldap re s
  = Ret (match d with
         | inl lderr =>
             if lderr =? LDAP_SUCCESS then DO_LDAP_OK else DO_LDAP_ERR_FATAL
         | inr _ => DO_LDAP_ERR_FATAL
         end) s' /\
  ri s' = Some r /\
  filter is_session_call (log s') = filter is_session_call (log s).
Proof.
  intros Hr Hld Hd Hne; split; [|split].
  - unfold do_ldap; rewrite bind_set_errmsg.
    rewrite (loop_with_session 1 re (with_errmsg None s) r ld Hr Hld).
    rewrite (bind_Ret _ _ _ _ _ Hd).
    destruct d as [lderr|v]; cbn [after_dispatch].
    + destruct (lderr =? LDAP_SUCCESS); [reflexivity|].
      destruct (Z.eqb_spec lderr LDAP_SERVER_DOWN); [congruence|reflexivity].
    + now rewrite (dispatch_inr _ _ _ _ Hd).
  - rewrite (fixes_dispatch re _ _ _ Hd); exact Hr.
  - destruct (adds_dispatch_session re (with_errmsg None s))
      as (evs & E & Hc).
    rewrite Hd in E; cbn [final with_errmsg log] in E.
    rewrite E, filter_app.
    destruct (filter is_session_call evs); [apply app_nil_r|].
    simpl in Hc; lia.
Qed.

(** ** [do_bind] and the handle *)

Lemma fixes_keeps_session {A} (m : M A) : fixes_ri m -> keeps_session m.
Proof.
  intros H s a s' (r & ld & Hr & Hld) E; exists r, ld.
  rewrite (H s a s' E); now split.
Qed.

Lemma keeps_session_bind {A B} (m : M A) (k : A -> M B) :
  keeps_session m -> (forall a, keeps_session (k a)) ->
  keeps_session (bind m k).
Proof.
  intros Hm Hk s b s' H E; unfold bind in E.
  destruct (m s) as [a s1|] eqn:E1; [|discriminate].
  exact (Hk a s1 b s' (Hm s a s1 H E1) E).
Qed.

Lemma keeps_session_principal (p : option string) :
  keeps_session (ri_set (set_ri_principal p)).
Proof.
  intros s a s' (r & ld & Hr & Hld); unfold ri_set; rewrite Hr.
  intros E; inversion E; subst; now exists (set_ri_principal p r), ld.
Qed.

Ltac session :=
  repeat first
    [ solve [auto]
    | apply keeps_session_principal
    | apply fixes_keeps_session; solve [fixes]
    | apply keeps_session_bind; [|intros ?]
    | match goal with
      | |- keeps_session (match ?x with _ => _ end) => destruct x
      | |- keeps_session (if ?b then _ else _) => destruct b
      end ].

Lemma fixes_tgt_loop (krbnames : list string) : fixes_ri (tgt_loop krbnames).
Proof. induction krbnames; simpl; fixes. Qed.

(** Unless [ldap_open] fails, [do_bind] leaves its handle in the replica
    struct. *)
Lemma bind_leaves_handle (s s' : St) (rc e : Z) :
  ri s <> None -> do_bind s = Ret (rc, e) s' -> rc <> BIND_ERR_OPEN ->
  has_session s'.
Proof.
  assert (Hfresh : forall s r, ri s = Some r -> ri_ldp r = None ->
            do_bind s = Ret (rc, e) s' -> rc <> BIND_ERR_OPEN ->
            has_session s').
  { clear s; intros s r Hr Hld Hb Hrc.
    pose proof (do_bind_fresh s r Hr Hld) as F; cbv zeta in F.
    destruct (answer (ldap_open (ri_hostname r) (ri_port r)) s) as [h|].
    - rewrite F in Hb.
      match type of Hb with
      | ?m ?s2 = _ => assert (K : keeps_session m)
      end.
      { pose proof fixes_tgt_loop.
        unfold kerberos_bind, read_krbnames; session. }
      refine (K _ _ _ _ Hb); now exists (set_ri_ldp (Some h) r), h.
    - rewrite F in Hb; injection Hb as <- _ _; contradiction. }
  intros Hri Hb Hrc; destruct (ri s) as [r|] eqn:Hr; [|contradiction].
  destruct (ri_ldp r) as [ld|] eqn:Hld.
  - rewrite (do_bind_stale s r ld Hr Hld) in Hb.
    refine (Hfresh _ (set_ri_ldp None r) _ _ Hb Hrc); reflexivity.
  - exact (Hfresh s r Hr Hld Hb Hrc).
Qed.

(** X11.  After a bind that fails otherwise than at [ldap_open] (the
    password is refused, the method is unknown, no ticket is obtained), the
    handle stays in [ri_ldp]: the replica has a session, and the next
    [do_ldap] does not bind again but runs the operation at once on this
    handle. *)
Theorem failed_bind_keeps_handle (re : Re) (s s' : St) (rc e : Z) :
  ri s <> None -> do_bind s = Ret (rc, e) s' ->
  rc <> BIND_OK -> rc <> BIND_ERR_OPEN ->
  has_session s' /\
  do_ldap re s'
  = bind (dispatch re) (after_dispatch 1 re) (with_errmsg None s').
Proof.
  intros Hri Hb _ Hrc.
  destruct (bind_leaves_handle s s' rc e Hri Hb Hrc) as (r & ld & Hr & Hld).
  split; [now exists r, ld|].
  unfold do_ldap; rewrite bind_set_errmsg.
  exact (loop_with_session 1 re (with_errmsg None s') r ld Hr Hld).
Qed.

Lemma loop_result (retry : nat) (re : Re) :
  BIND_ERR_OPEN <> BIND_OK ->
  forall (s s' : St) (v : Z),
    ri s <> None -> do_ldap_loop retry re s = Ret v s' ->
    (v = DO_LDAP_OK /\ has_session s') \/
    v = DO_LDAP_ERR_RETRYABLE \/ v = DO_LDAP_ERR_FATAL.
Proof.
  intros Hopen; induction retry as [|retry IH]; intros s s' v Hri E.
  - inversion E; auto.
  - assert (Hrest : forall s1, has_session s1 ->
              bind (dispatch re) (after_dispatch retry re) s1 = Ret v s' ->
              (v = DO_LDAP_OK /\ has_session s') \/
              v = DO_LDAP_ERR_RETRYABLE \/ v = DO_LDAP_ERR_FATAL).
    { intros s1 H1 E1; unfold bind in E1.
      destruct (dispatch re s1) as [d s2|] eqn:Ed; [|discriminate].
      assert (H2 : has_session s2)
        by exact (fixes_keeps_session _ (fixes_dispatch re) _ _ _ H1 Ed).
      destruct d as [lderr|w]; cbn [after_dispatch] in E1.
      - destruct (lderr =? LDAP_SUCCESS); [inversion E1; subst; auto|].
        destruct (lderr =? LDAP_SERVER_DOWN); [|inversion E1; auto].
        unfold bind in E1.
        destruct (do_unbind s2) as [u s3|] eqn:Eu; [|discriminate].
        refine (IH s3 s' v _ E1).
        apply (keeps_do_unbind s2 u s3); [|exact Eu].
        destruct H2 as (r & _ & Hr & _); congruence.
      - inversion E1; subst; rewrite (dispatch_inr _ _ _ _ Ed); auto. }
    destruct (ri s) as [r|] eqn:Hr; [|contradiction].
    destruct (ri_ldp r) as [ld|] eqn:Hld.
    + rewrite (loop_with_session retry re s r ld Hr Hld) in E.
      apply (Hrest s); [now exists r, ld | exact E].
    + simpl in E; rewrite (bind_ri_get _ _ _ r Hr), Hld, bind_bind in E.
      unfold bind at 1 in E.
      destruct (do_bind s) as [[rc e] s1|] eqn:Eb; [|discriminate].
      rewrite bind_ret in E; cbn [fst] in E.
      destruct (Z.eqb_spec rc BIND_OK) as [->|Hrc]; cbn [negb] in E.
      * apply (Hrest s1); [|exact E].
        apply (bind_leaves_handle s s1 BIND_OK e); [congruence | exact Eb|].
        congruence.
      * inversion E; auto.
Qed.

(** X12.  On a valid replica [do_ldap] returns one of its three codes, and
    [DO_LDAP_OK] only with a session left on the replica for the next
    entry. *)
Theorem ok_leaves_session (re : Re) (s s' : St) (v : Z) :
  BIND_ERR_OPEN <> BIND_OK -> ri s <> None ->
  do_ldap re s = Ret v s' ->
  (v = DO_LDAP_OK /\ has_session s') \/
  v = DO_LDAP_ERR_RETRYABLE \/ v = DO_LDAP_ERR_FATAL.
Proof.
  intros Hopen Hri E; unfold do_ldap in E; rewrite bind_set_errmsg in E.
  exact (loop_result 2 re Hopen (with_errmsg None s) s' v Hri E).
Qed.

(** ** The Kerberos bind *)

Ltac calls :=
  cbn [log log_more after_call with_errmsg with_world with_ri];
  rewrite ?filter_app; cbn [filter is_call];
  rewrite <- ?app_assoc; cbn [app]; rewrite ?app_nil_r; reflexivity.


(** X14.  The Kerberos bind of a replica with a configured principal, when
    the ticket is obtained.  [do_bind] does not read the directory: after
    [ldap_open] it parses the principal, asks for the ticket-granting ticket
    with the realm in upper case, on both sides, and the srvtab of the
    replica, and binds on the new handle with the bind DN.  A copy of the
    principal replaces [ri_principal] whatever the bind returns, and the
    array that holds the configured principal goes to [ldap_value_free].
    The result is [0] on [LDAP_SUCCESS], and [BIND_ERR_KERBEROS_FAILED] with
    the error behind [lderr] otherwise. *)
Theorem kerberos_bind_with_principal (s : St) (r : Ri) (h : LDAP)
    (p name instance realm : string) :
  KERBEROS = true ->
  ri s = Some r -> ri_ldp r = None ->
  ri_bind_method r = AUTH_KERBEROS -> ri_principal r = Some p ->
  let o := ldap_open (ri_hostname r) (ri_port r) in
  let kp := kname_parse p in
  let tk := krb_get_svc_in_tkt name instance (upcase realm) "krbtgt"
              (upcase realm) 1 (ri_srvtab r) in
  let kb := ldap_kerberos_bind_s (Some h) (ri_bind_dn r) in
  let s1 := with_world (configured h (world (after_call o s))) s in
  let s2 := after_call kp s1 in
  let s3 := after_call tk s2 in
  let s4 := after_call kb s3 in
  answer o s = Some h ->
  answer kp s1 = (KSUCCESS, (name, instance, realm)) ->
  answer tk s2 = KSUCCESS ->
  exists s',
    do_bind s
    = Ret (if answer kb s3 =? LDAP_SUCCESS then (0, 0)
           else (BIND_ERR_KERBEROS_FAILED, answer kb s3)) s' /\
    ri s' = Some (set_ri_principal (answer (strdup p) s4)
                    (set_ri_ldp (Some h) r)) /\
    filter is_call (log s')
    = filter is_call (log s)
      ++ [Call o; Call kp; Call tk; Call kb; Call (strdup p);
          Call (ldap_value_free [p])].
Proof.
  intros Hk Hr Hld Hm Hp o kp tk kb s1 s2 s3 s4 Ho Hkp Htk.
  pose proof (do_bind_fresh s r Hr Hld) as F; cbv zeta in F.
  fold o in F; rewrite Ho in F; rewrite F; clear F.
  rewrite Hm, Z.eqb_refl, Hk.
  set (r1 := set_ri_ldp (Some h) r).
  match goal with
  | |- context [kerberos_bind ?s0] =>
      set (t0 := s0); assert (Hr0 : ri t0 = Some r1) by reflexivity
  end.
  unfold kerberos_bind; run r1 Hr0.
  replace (ri_principal r1) with (Some p) by (symmetry; exact Hp).
  run r1 Hr0; cbn [tgt_loop]; run r1 Hr0.
  change (answer (kname_parse p) t0) with (answer kp s1); rewrite Hkp.
  cbv iota beta; rewrite Z.eqb_refl; cbn [negb]; run r1 Hr0.
  change (ri_srvtab r1) with (ri_srvtab r); fold kp tk.
  change (answer tk (after_call kp t0)) with (answer tk s2); rewrite Htk.
  rewrite Z.eqb_refl; cbn [negb]; run r1 Hr0.
  change (ri_ldp r1) with (Some h); change (ri_bind_dn r1) with (ri_bind_dn r).
  fold kb.
  match goal with
  | |- context [answer kb ?s0] => change (answer kb s0) with (answer kb s3)
  end.
  match goal with
  | |- context [answer (strdup p) ?s0] =>
      change (answer (strdup p) s0) with (answer (strdup p) s4)
  end.
  erewrite bind_ri_set by reflexivity.
  destruct (answer kb s3 =? LDAP_SUCCESS); cbn [negb]; run r1 Hr0;
    unfold ret; eexists; (split; [reflexivity|]); (split; [reflexivity|]);
    subst t0; calls.
Qed.

(** ** [upcase] *)

Lemma upcase_char (c : ascii) :
  let u := if islower c then toupper c else c in
  code (tolower u) = code (tolower c) /\
  (code u =? 0) = (code c =? 0) /\
  (if islower u then toupper u else u) = u /\
  islower u = false.
Proof.
  destruct c as [[] [] [] [] [] [] [] []]; vm_compute; repeat split.
Qed.

(** X15.  [upcase] changes the case of letters and nothing else: the string
    it leaves is equal to the one it was given for [strcasecmp] and has the
    same length, a second [upcase] changes nothing, and no lower-case letter
    is left in a string without a NUL byte inside. *)
Theorem upcase_changes_case_only (s : string) :
  strcasecmp (upcase s) s = 0 /\
  String.length (upcase s) = String.length s /\
  upcase (upcase s) = upcase s /\
  ((forall c, In c (list_ascii_of_string s) -> code c <> 0) ->
   forall c, In c (list_ascii_of_string (upcase s)) -> islower c = false).
Proof.
  induction s as [|c s (IH1 & IH2 & IH3 & IH4)].
  - repeat split; intros _ c [].
  - destruct (upcase_char c) as (U1 & U2 & U3 & U4).
    cbn [upcase]; destruct (code c =? 0) eqn:E0.
    + repeat split.
      * cbn [strcasecmp]; rewrite Z.eqb_refl.
        apply Z.eqb_eq in E0.
        assert (c = "000"%char) as ->.
        { rewrite <- (ascii_nat_embedding c); unfold code in E0.
          replace (nat_of_ascii c) with 0%nat by lia; reflexivity. }
        reflexivity.
      * cbn [upcase]; now rewrite E0.
      * intros H; exfalso; apply (H c); [now left|].
        now apply Z.eqb_eq.
    + repeat split.
      * cbn [strcasecmp]; rewrite U1, Z.eqb_refl, IH1.
        now destruct (code (tolower c) =? 0).
      * cbn [String.length]; now rewrite IH2.
      * cbn [upcase]; rewrite U2, U3, IH3; reflexivity.
      * intros H x [<- | Hx]; [exact U4|].
        apply IH4; [|exact Hx].
        intros y Hy; apply H; now right.
Qed.

End Properties.

(** * The properties on runs of the scripted library *)

#[local] Existing Instance headers_1x.
#[local] Existing Instance scripted.

(** ** Modify entries *)

(** C2, on an entry: after a plain line, an operator line and its value. *)
Lemma leading_plain_lines_are_skipped_witness :
  op_ldap_modify
    (entry 5 (Some ([item "cn" "Babs"] ++
                    item "add" "mail" :: [item "mail" "babs@example.org"])))
    (start (replica (Some 1) 1) [])
  = op_ldap_modify
      (entry 5 (Some (item "add" "mail" :: [item "mail" "babs@example.org"])))
      (log_more (map unknown_mod_type [item "cn" "Babs"])
         (start (replica (Some 1) 1) [])).
Proof.
  exact (proj1 (@leading_plain_lines_are_skipped headers_1x scripted 5
                  "cn=Barbara Jensen,o=Example" [item "cn" "Babs"]
                  (item "add" "mail") [item "mail" "babs@example.org"]
                  (start (replica (Some 1) 1) []) (replica (Some 1) 1)
                  eq_refl eq_refl eq_refl)).
Defined.

(** C2 as stated fails on this entry: it is not rejected, and [do_ldap]
    does not return [DO_LDAP_ERR_FATAL] without an operation; the modify
    operation is called and [do_ldap] returns [DO_LDAP_OK]. *)
Lemma plain_line_first_is_not_rejected :
  ~ rejects
      (op_ldap_modify
         (entry 5 (Some [item "cn" "Babs"; item "add" "mail";
                         item "mail" "babs@example.org"])))
      (start (replica (Some 1) 1) []) /\
  ~ answers_without_operation
      (entry 5 (Some [item "cn" "Babs"; item "add" "mail";
                      item "mail" "babs@example.org"]))
      2 (start (replica (Some 1) 1) []) /\
  exists s',
    do_ldap
      (entry 5 (Some [item "cn" "Babs"; item "add" "mail";
                      item "mail" "babs@example.org"]))
      (start (replica (Some 1) 1) [])
    = Ret 0 s' /\
    filter is_operation (log s')
    = [Call (ldap_modify_s (Some 1) "cn=Barbara Jensen,o=Example"
               [{| mod_op := 128; mod_type := Some "mail";
                   mod_bvalues :=
                     Some [{| bv_val := "babs@example.org";
                              bv_len := 16 |}] |}])].
Proof.
  split; [|split].
  - intros (rc & s' & E & Hrc & _); vm_compute in E.
    injection E as <- _; now apply Hrc.
  - intros (s' & E & _); vm_compute in E; discriminate.
  - eexists; split; vm_compute; reflexivity.
Qed.

(** C3, on an entry: a line for [telephoneNumber] inside the group opened
    for [mail]. *)
Lemma mismatched_line_is_skipped_witness :
  modify_step (item "telephoneNumber" "555")
    {| state := 8; nvals := 0; nops := 1; ldm := Some 0%nat;
       ldmarr := Some [{| mod_op := 128; mod_type := Some "mail";
                          mod_bvalues := None |}] |}
    (start (replica (Some 1) 1) [])
  = Ret {| state := 8; nvals := 0; nops := 1; ldm := Some 0%nat;
           ldmarr := Some [{| mod_op := 128; mod_type := Some "mail";
                              mod_bvalues := None |}] |}
      (log_more [malformed_modify_op (item "telephoneNumber" "555") "mail"]
         (start (replica (Some 1) 1) [])).
Proof.
  refine (proj1 (mismatched_line_is_skipped 5 "cn=Barbara Jensen,o=Example"
                   [item "add" "mail"] (item "telephoneNumber" "555")
                   [item "mail" "babs@example.org"]
                   (start (replica (Some 1) 1) [])
                   (start (replica (Some 1) 1) []) _
                   {| mod_op := 128; mod_type := Some "mail";
                      mod_bvalues := None |}
                   "mail" (replica (Some 1) 1) _ _ _ _ _ _ _)).
  - reflexivity.
  - reflexivity.
  - reflexivity.
  - simpl; unfold AWAITING_OP; lia.
  - reflexivity.
  - vm_compute; discriminate.
  - reflexivity.
Defined.

(** C3 as stated fails on this entry: it is not rejected, the modify
    operation is called with the group for [mail] and its value. *)
Lemma mismatched_line_is_not_rejected :
  ~ rejects
      (op_ldap_modify
         (entry 5 (Some [item "add" "mail"; item "telephoneNumber" "555";
                         item "mail" "babs@example.org"])))
      (start (replica (Some 1) 1) []) /\
  exists s',
    do_ldap
      (entry 5 (Some [item "add" "mail"; item "telephoneNumber" "555";
                      item "mail" "babs@example.org"]))
      (start (replica (Some 1) 1) [])
    = Ret 0 s' /\
    filter is_operation (log s')
    = [Call (ldap_modify_s (Some 1) "cn=Barbara Jensen,o=Example"
               [{| mod_op := 128; mod_type := Some "mail";
                   mod_bvalues :=
                     Some [{| bv_val := "babs@example.org";
                              bv_len := 16 |}] |}])].
Proof.
  split.
  - intros (rc & s' & E & Hrc & _); vm_compute in E.
    injection E as <- _; now apply Hrc.
  - eexists; split; vm_compute; reflexivity.
Qed.

(** C4, on the modify entry without items. *)
Lemma modify_without_items_faults_witness :
  do_ldap (entry 5 (Some [])) (start (replica (Some 1) 1) [])
  = Fault NULL_ldmarr_store (start (replica (Some 1) 1) []).
Proof.
  refine (proj2 (modify_without_items_faults (entry 5 (Some []))
                   (start (replica (Some 1) 1) []) (replica (Some 1) 1) 1
                   _ _ _ _ _)).
  - reflexivity.
  - vm_compute; discriminate.
  - reflexivity.
  - reflexivity.
  - reflexivity.
Defined.

(** C8, on an entry whose plain line comes before its separator. *)
Lemma entry_without_operator_faults_witness :
  exists evs,
    filter is_call evs = [] /\
    op_ldap_modify (entry 5 (Some [item "cn" "Babs"; item "-" ""]))
      (start (replica (Some 1) 1) [])
    = Fault NULL_ldmarr_store (log_more evs (start (replica (Some 1) 1) [])).
Proof.
  refine (entry_without_operator_faults
            (entry 5 (Some [item "cn" "Babs"; item "-" ""]))
            [item "cn" "Babs"; item "-" ""]
            (start (replica (Some 1) 1) []) _ _ _).
  - reflexivity.
  - reflexivity.
  - vm_compute; discriminate.
Defined.

(** C8 as stated fails on the entry whose plain line comes after its
    separator: the run does not reach the store of the terminator. *)
Lemma separator_then_plain_stops_before_store :
  ~ exists s',
      op_ldap_modify (entry 5 (Some [item "-" ""; item "cn" "Babs"]))
        (start (replica (Some 1) 1) [])
      = Fault NULL_ldmarr_store s'.
Proof. intros (s' & E); vm_compute in E; discriminate. Qed.

(** C9, on the entry made of a separator and a plain line. *)
Lemma plain_after_separator_reads_unassigned_ldm_witness :
  op_ldap_modify (entry 5 (Some [item "-" ""; item "cn" "Babs"]))
    (start (replica (Some 1) 1) [])
  = Fault UNINIT_ldm (start (replica (Some 1) 1) []).
Proof.
  refine (proj2 (proj2 (plain_after_separator_reads_unassigned_ldm 5
                          "cn=Barbara Jensen,o=Example" [] (item "-" "") []
                          (item "cn" "Babs") []
                          (start (replica (Some 1) 1) []) _ _ _ _ _))).
  - reflexivity.
  - reflexivity.
  - reflexivity.
  - reflexivity.
  - vm_compute; discriminate.
Defined.

(** ** Add entries *)

(** C1, on the add entry without items. *)
Lemma add_without_items_faults_witness :
  do_ldap (entry 4 (Some [])) (start (replica (Some 1) 1) [])
  = Fault NULL_ldmarr_free
      (log_more
         [Debug LDAP_DEBUG_ANY "Error: op_ldap_add: no mods to do (%s)!"
            (Str "cn=Barbara Jensen,o=Example") (Int 0) (Int 0)]
         (with_errmsg (Some "No modifications to do")
            (start (replica (Some 1) 1) []))).
Proof.
  refine (proj2 (add_without_items_faults (entry 4 (Some []))
                   (start (replica (Some 1) 1) []) (replica (Some 1) 1) 1
                   _ _ _ _)); reflexivity.
Defined.

(** C10, on the entries without an array of items. *)
Lemma absent_items_checked_except_by_add_witness :
  (exists s',
     do_ldap (entry 5 None) (start (replica (Some 1) 1) [])
     = Ret 2 s' /\
     errmsg s' = Some "No arguments given" /\
     filter is_call (log s') = []) /\
  (exists s',
     do_ldap (entry 7 None) (start (replica (Some 1) 1) [])
     = Ret 2 s' /\
     errmsg s' = Some "No arguments given" /\
     filter is_call (log s') = []) /\
  do_ldap (entry 4 None) (start (replica (Some 1) 1) [])
  = Fault NULL_mi (start (replica (Some 1) 1) []).
Proof.
  destruct (absent_items_checked_except_by_add "cn=Barbara Jensen,o=Example"
              (start (replica (Some 1) 1) []) (replica (Some 1) 1) 1)
    as (_ & H2 & _ & H4 & _ & H6);
    try reflexivity; try (vm_compute; discriminate).
  exact (conj H2 (conj H4 H6)).
Defined.

(** ** Rename entries *)

(** C6, on the entry that gives the flag before the new RDN. *)
Lemma rename_passes_first_value_witness :
  exists ev,
    is_call ev = false /\
    op_ldap_modrdn
      (entry 7 (Some [item "deleteoldrdn" "1"; item "newrdn" "cn=Babs"]))
      (start (replica (Some 1) 1) [])
    = Ret 0
        (after_call
           (ldap_modrdn2_s (Some 1) "cn=Barbara Jensen,o=Example" "1" 1)
           (log_more [ev] (start (replica (Some 1) 1) []))).
Proof.
  refine (proj2 (rename_passes_first_value "cn=Barbara Jensen,o=Example"
                   "cn=Babs" (start (replica (Some 1) 1) [])
                   (replica (Some 1) 1) 1 _ _ _)).
  - reflexivity.
  - reflexivity.
  - vm_compute; discriminate.
Defined.

(** ** Binding and retrying *)

(** C5, on a replica whose bind method is [77]. *)
Lemma unknown_method_fails_after_open_witness :
  exists s',
    do_bind (start (replica None 77) []) = Ret (3, 0) s' /\
    filter is_call (log s')
    = [] ++ [Call (ldap_open "replica.example.org" 389)].
Proof.
  refine (proj1 (unknown_method_fails_after_open (start (replica None 77) [])
                   (replica None 77) _ _ _ _ _ _)).
  - reflexivity.
  - reflexivity.
  - vm_compute; discriminate.
  - vm_compute; discriminate.
  - vm_compute; discriminate.
  - vm_compute; discriminate.
Defined.

(** C5 as stated fails on this replica: [do_bind] calls [ldap_open] before
    it fails, and [do_ldap] does not return [DO_LDAP_ERR_FATAL] but
    [DO_LDAP_ERR_RETRYABLE]. *)
Lemma unknown_method_opens_and_is_retryable :
  ~ fails_without_network (start (replica None 77) []) /\
  ~ (exists s',
       do_ldap (entry 6 None) (start (replica None 77) []) = Ret 2 s') /\
  exists s',
    do_ldap (entry 6 None) (start (replica None 77) []) = Ret 1 s' /\
    filter is_network (log s')
    = [Call (ldap_open "replica.example.org" 389)].
Proof.
  split; [|split].
  - intros (rc & e & s' & E & _ & Hn); vm_compute in E.
    injection E as <- <- <-; vm_compute in Hn; discriminate.
  - intros (s' & E); vm_compute in E; discriminate.
  - eexists; split; vm_compute; reflexivity.
Qed.

(** C7, on a delete entry, for a replica that answers "server down" to the
    operation twice: the result is [DO_LDAP_ERR_FATAL], after one rebind. *)
Lemma one_rebind_and_reapply_witness :
  exists s',
    do_ldap (entry 6 None) (start (replica (Some 1) 1) [81; 0; 0; 0; 81; 0])
    = Ret 2 s' /\
    filter is_network (log s')
    = [Call (ldap_delete_s (Some 1) "cn=Barbara Jensen,o=Example");
       Call (ldap_unbind (Some 1));
       Call (ldap_open "replica.example.org" 389);
       Call (ldap_simple_bind_s (Some 1) (Some "cn=slurpd") (Some "secret"));
       Call (ldap_delete_s (Some 1) "cn=Barbara Jensen,o=Example");
       Call (ldap_unbind (Some 1))].
Proof.
  eassert (Hd : dispatch (entry 6 None)
                  (with_errmsg None
                     (start (replica (Some 1) 1) [81; 0; 0; 0; 81; 0]))
                = Ret (inl 81) _) by (vm_compute; reflexivity).
  assert (Hne : LDAP_SERVER_DOWN <> LDAP_SUCCESS)
    by (vm_compute; discriminate).
  assert (Hready : session_ready
                     (with_errmsg None
                        (start (replica (Some 1) 1) [81; 0; 0; 0; 81; 0]))
                     (with_errmsg None
                        (start (replica (Some 1) 1) [81; 0; 0; 0; 81; 0])))
    by (exists (replica (Some 1) 1); split; reflexivity).
  destruct (one_rebind_and_reapply (entry 6 None)
              (start (replica (Some 1) 1) [81; 0; 0; 0; 81; 0]) _ _
              Hne Hready Hd)
    as (v & s3 & r3 & Hu & _ & _ & _ & _ & Hdown & _).
  vm_compute in Hu; injection Hu as <- <-.
  match type of Hdown with
  | forall e s4 s5, do_bind ?s3 = _ -> _ =>
      eassert (Hb : do_bind s3 = Ret (0, _) _) by (vm_compute; reflexivity)
  end.
  match type of Hb with
  | _ = Ret _ ?s4 =>
      eassert (Hd2 : dispatch (entry 6 None) s4 = Ret (inl 81) _)
        by (vm_compute; reflexivity)
  end.
  destruct (Hdown _ _ _ Hb Hd2) as (v' & s6 & Hu' & E).
  vm_compute in Hu'; injection Hu' as <- <-.
  eexists; split; [exact E | reflexivity].
Defined.

(** ** Further runs *)


(** X2, on a delete entry that the replica refuses with the error [32]. *)
Lemma delete_outcomes_witness :
  exists s',
    do_ldap (entry 6 None) (start (replica (Some 1) 1) [32]) = Ret 2 s' /\
    filter is_call (log s')
    = [Call (ldap_delete_s (Some 1) "cn=Barbara Jensen,o=Example")].
Proof.
  eexists; split.
  - refine (proj2 (delete_outcomes (entry 6 None)
                     (start (replica (Some 1) 1) [32])
                     (replica (Some 1) 1) 1 _ _ _ _ _) _ _).
    + reflexivity.
    + vm_compute; discriminate.
    + vm_compute; discriminate.
    + reflexivity.
    + reflexivity.
    + vm_compute; discriminate.
    + vm_compute; discriminate.
  - reflexivity.
Defined.

(** X3, on an entry whose change type is [99]. *)
Lemma unknown_change_type_witness :
  exists s',
    do_ldap (entry 99 None) (start (replica (Some 1) 1) []) = Ret 2 s' /\
    filter is_call (log s') = [].
Proof.
  eexists; split.
  - refine (proj1 (unknown_change_type (entry 99 None)
                     (start (replica (Some 1) 1) [])
                     (replica (Some 1) 1) _ _ _ _ _) _).
    + vm_compute; discriminate.
    + vm_compute; discriminate.
    + vm_compute; discriminate.
    + vm_compute; discriminate.
    + reflexivity.
    + discriminate.
  - reflexivity.
Defined.

(** X5, on a replica with a session. *)
Lemma bind_unbinds_first_witness :
  exists s0,
    do_bind (start (replica (Some 1) 1) []) = do_bind s0 /\
    ri s0 = Some (replica None 1) /\
    filter is_call (log s0) = [Call (ldap_unbind (Some 1))].
Proof.
  destruct (bind_unbinds_first (start (replica (Some 1) 1) [])
              (replica (Some 1) 1) 1)
    as (s0 & evs & H1 & H2 & _ & H3 & _); [reflexivity .. |].
  exists s0; split; [exact H1|]; split; [exact H2 | exact H3].
Defined.

(** X6, on a replica that refuses the password with the error [49]. *)
Lemma simple_bind_outcomes_witness :
  exists s',
    do_bind (start (replica None 1) [0; 49]) = Ret (4, 49) s' /\
    ri s' = Some (replica (Some 1) 1) /\
    filter is_call (log s')
    = [Call (ldap_open "replica.example.org" 389);
       Call (ldap_simple_bind_s (Some 1) (Some "cn=slurpd")
               (Some "secret"))].
Proof.
  refine (simple_bind_outcomes (start (replica None 1) [0; 49])
            (replica None 1) _ _ _ _).
  - reflexivity.
  - reflexivity.
  - reflexivity.
  - vm_compute; discriminate.
Defined.

(** X7, on a replica whose bind method is Kerberos. *)
Lemma kerberos_not_compiled_witness :
  exists s',
    do_bind (start (replica None 2) []) = Ret (5, 0) s' /\
    filter is_call (log s')
    = [Call (ldap_open "replica.example.org" 389)].
Proof.
  destruct (kerberos_not_compiled (start (replica None 2) [])
              (replica None 2) 1)
    as (s' & H1 & H2 & _); [reflexivity .. |].
  exists s'; split; [exact H1 | exact H2].
Defined.


(** X10, on a delete entry that the replica refuses with the error [32]. *)
Lemma errors_keep_session_witness :
  exists s',
    do_ldap (entry 6 None) (start (replica (Some 1) 1) [32]) = Ret 2 s' /\
    ri s' = Some (replica (Some 1) 1) /\
    filter is_session_call (log s') = [].
Proof.
  eexists.
  refine (errors_keep_session (entry 6 None)
            (start (replica (Some 1) 1) [32]) _ (replica (Some 1) 1) 1
            (inl 32) _ _ _ _).
  - reflexivity.
  - reflexivity.
  - reflexivity.
  - discriminate.
Defined.

(** X11, on a replica that refuses the password with the error [49]. *)
Lemma failed_bind_keeps_handle_witness :
  has_session (final (do_bind (start (replica None 1) [0; 49]))).
Proof.
  refine (proj1 (failed_bind_keeps_handle (entry 6 None)
                   (start (replica None 1) [0; 49])
                   (final (do_bind (start (replica None 1) [0; 49])))
                   4 49 _ _ _ _)).
  - discriminate.
  - reflexivity.
  - vm_compute; discriminate.
  - vm_compute; discriminate.
Defined.

(** X12, on a delete entry sent to a replica without a session. *)
Lemma ok_leaves_session_witness :
  has_session (final (do_ldap (entry 6 None) (start (replica None 1) []))).
Proof.
  destruct (ok_leaves_session (entry 6 None) (start (replica None 1) [])
              (final (do_ldap (entry 6 None) (start (replica None 1) [])))
              0)
    as [[_ H] | [H | H]].
  - vm_compute; discriminate.
  - discriminate.
  - reflexivity.
  - exact H.
  - discriminate H.
  - discriminate H.
Defined.


(** X14, on a build with Kerberos and a replica with a configured
    principal. *)
Lemma kerberos_bind_with_principal_witness :
  exists s',
    @do_bind headers_1x_kerberos scripted
      (start
         (set_ri_principal (Some "slurpd@example.org") (replica None 2)) [])
    = Ret (0, 0) s' /\
    filter is_call (log s')
    = [Call (ldap_open "replica.example.org" 389);
       Call (kname_parse "slurpd@example.org");
       Call (krb_get_svc_in_tkt "slurpd@example.org" EmptyString
               "EXAMPLE.ORG" "krbtgt" "EXAMPLE.ORG" 1 EmptyString);
       Call (ldap_kerberos_bind_s (Some 1) "cn=slurpd");
       Call (strdup "slurpd@example.org");
       Call (ldap_value_free ["slurpd@example.org"])].
Proof.
  destruct (@kerberos_bind_with_principal headers_1x_kerberos scripted
              (start
                 (set_ri_principal (Some "slurpd@example.org")
                    (replica None 2)) [])
              (set_ri_principal (Some "slurpd@example.org")
                 (replica None 2))
              1 "slurpd@example.org" "slurpd@example.org" EmptyString
              "EXAMPLE.ORG")
    as (s' & H1 & _ & H2); [reflexivity .. |].
  exists s'; split; [exact H1 | exact H2].
Defined.


